(** * generate_slideshow.py: the catalog builder and the slide-show player

    A shallow embedding of [scan_slides], [main] and of the [SlideShowPlayer]
    class that [generate_html] writes into the document, followed by the
    properties of the specification that were checked against them.

    Conventions of the embedding:
    - a Python or JavaScript string is the list of its code points ([str]);
    - the Unicode table of decimal digits, which [\d] and [int] consult, is
      not part of the repository: it is the class [DigitTable];
    - a Python [dict] and the JavaScript object built from it are a [gmap];
    - a directory is the list of its entries in iteration order;
    - JavaScript numbers holding slide indices are integers ([Z]); the
      progress percentage is a binary64 float, as in the browser. *)

From Stdlib Require Import ZArith NArith QArith Qabs List String Ascii Floats Uint63.
From Stdlib Require Import Sorting.Sorted Sorting.Permutation Lia.
From stdpp Require Import base option list gmap.

Local Open Scope N_scope.

(** ** Strings *)

Abbreviation str := (list N).

(** An ASCII literal as a list of code points. *)
Definition lit (s : string) : str :=
  List.map N_of_ascii (list_ascii_of_string s).

(** Decimal digits of [n], most significant first; [fuel] bounds the number
    of digits. *)
Fixpoint decimal_digits (fuel : nat) (n : N) : str :=
  match fuel with
  | O => []
  | S fuel' =>
      if n <? 10 then [48 + n]
      else decimal_digits fuel' (n / 10) ++ [48 + n mod 10]
  end.

(** The decimal numeral of a natural number: [str(n)] in Python and
    [n.toString()] in JavaScript for a non-negative integer. *)
Definition to_decimal (n : N) : str :=
  decimal_digits (S (N.to_nat (N.log2 n))) n.

(** [(z).toString()] for an integer-valued JavaScript number. *)
Definition toString (z : Z) : str :=
  if (z <? 0)%Z then 45 :: to_decimal (Z.to_N (- z)) else to_decimal (Z.to_N z).

(** The decimal digits of ASCII and their values. *)
Definition ascii_digit (c : N) : option N :=
  if (48 <=? c) && (c <=? 57) then Some (c - 48) else None.

(** The Unicode decimal digits (category Nd) with their values.  Python's
    [\d] on a [str] pattern and [int] both use this table; on ASCII it is
    ['0'..'9']. *)
Class DigitTable := {
  digit_value : N -> option N;
  digit_value_ascii : forall c, c < 128 -> digit_value c = ascii_digit c;
  digit_value_bound : forall c v, digit_value c = Some v -> v < 10
}.

Definition is_digit `{DigitTable} (c : N) : bool :=
  match digit_value c with Some _ => true | None => false end.

(** [int(s)] for a string of decimal digits.  A file name is far shorter
    than the 4300 digits from which [int] refuses a string. *)
Definition py_int `{DigitTable} (s : str) : N :=
  fold_left (fun acc c => 10 * acc + default 0 (digit_value c)) s 0.

Fixpoint strip_prefix (p s : str) : option str :=
  match p, s with
  | [], _ => Some s
  | a :: p', b :: s' => if a =? b then strip_prefix p' s' else None
  | _ :: _, [] => None
  end.

(** ** Regular expressions of [scan_slides] *)

(** The longest run of digits at the head of [s], and the rest: [\d+] is
    greedy and what follows it in every pattern is not a digit. *)
Fixpoint span_digits `{DigitTable} (s : str) : str * str :=
  match s with
  | c :: s' =>
      if is_digit c then let (d, r) := span_digits s' in (c :: d, r)
      else ([], s)
  | [] => ([], [])
  end.

(** [$] without MULTILINE: the end of the string, or just before a newline
    that ends the string. *)
Definition at_end (r : str) : bool :=
  match r with
  | [] => true
  | [10] => true
  | _ => false
  end.

(** [digits ext $] at the head of [s]; the digit run is the group. *)
Definition digits_then `{DigitTable} (ext : str) (s : str) : option str :=
  let (d, r) := span_digits s in
  match d with
  | [] => None
  | _ :: _ =>
      match strip_prefix ext r with
      | Some r' => if at_end r' then Some d else None
      | None => None
      end
  end.

(** [re.compile(r'^(\d+)\.png$').match(name)], giving [group(1)]. *)
Definition png_pattern `{DigitTable} (name : str) : option str :=
  digits_then (lit ".png") name.

(** [re.compile(r'^(\d+)\.mp4$').match(name)], giving [group(1)]. *)
Definition mp4_pattern `{DigitTable} (name : str) : option str :=
  digits_then (lit ".mp4") name.

(** [re.compile(r'^(\d+)-(\d+)\.mp4$').match(name)], giving both groups. *)
Definition transition_pattern `{DigitTable} (name : str) : option (str * str) :=
  let (d1, r) := span_digits name in
  match d1, r with
  | _ :: _, 45 :: r' =>
      match digits_then (lit ".mp4") r' with
      | Some d2 => Some (d1, d2)
      | None => None
      end
  | _, _ => None
  end.

(** ** Paths *)

(** Index of the last ['.'] of [s], counted from [i]: [s.rfind('.')]. *)
Fixpoint rfind_dot (s : str) (i : nat) : option nat :=
  match s with
  | [] => None
  | c :: s' =>
      match rfind_dot s' (S i) with
      | Some j => Some j
      | None => if c =? 46 then Some i else None
      end
  end.

(** [PurePath.suffix]: the name from its last dot on, unless that dot is the
    first or the last character. *)
Definition suffix (name : str) : str :=
  match rfind_dot name 0 with
  | Some i =>
      if (0 <? i)%nat && (i <? length name - 1)%nat then drop i name else []
  | None => []
  end.

(** [str.lower] on ASCII letters.  No code point outside ASCII lowercases to
    a character of [".mp4"], so the comparison below is the source's. *)
Definition lower (s : str) : str :=
  List.map (fun c => if (65 <=? c) && (c <=? 90) then c + 32 else c) s.

(** What a directory entry is: [is_file] and [exists] follow symbolic links,
    and [iterdir] also yields the dangling ones. *)
Inductive node_kind := RegularFile | Directory | DanglingLink.

Record DirEntry := { name : str; kind : node_kind }.

Definition is_file (f : DirEntry) : bool :=
  match kind f with RegularFile => true | _ => false end.

Definition exists_ (f : DirEntry) : bool :=
  match kind f with DanglingLink => false | _ => true end.

(** The cover video, U+5C01 U+9762 followed by [".mp4"]. *)
Definition cover_name : str := [23553; 38754] ++ lit ".mp4".

(** ** The catalog builder *)

Module Scan.

Record Slide := { num : N; filename : str; path : str }.

Record Catalog := {
  slides : list Slide;
  videos : gmap str str;
  total : nat
}.

(** First loop of [scan_slides]: every regular file whose name matches the
    image pattern is appended, in iteration order. *)
Fixpoint collect_slides `{DigitTable} (entries : list DirEntry)
    (slides : list Slide) : list Slide :=
  match entries with
  | [] => slides
  | f :: rest =>
      collect_slides rest
        (if is_file f then
           match png_pattern (name f) with
           | Some g =>
               slides ++ [{| num := py_int g; filename := name f; path := name f |}]
           | None => slides
           end
         else slides)
  end.

(** [list.sort(key=lambda x: x['num'])] is a stable ascending sort; any two
    stable sorts give the same list, this one inserts from the right. *)
Fixpoint insert_by_num (x : Slide) (l : list Slide) : list Slide :=
  match l with
  | [] => [x]
  | y :: l' => if num x <=? num y then x :: y :: l' else y :: insert_by_num x l'
  end.

Fixpoint sort_by_num (l : list Slide) : list Slide :=
  match l with
  | [] => []
  | x :: l' => insert_by_num x (sort_by_num l')
  end.

(** [(dir_path / name).exists()]. *)
Definition path_exists (entries : list DirEntry) (n : str) : bool :=
  existsb (fun f => bool_decide (name f = n) && exists_ f) entries.

(** Second loop of [scan_slides]: the single-slide and the transition
    videos, each overwriting what the key held. *)
Fixpoint collect_videos `{DigitTable} (entries : list DirEntry)
    (videos : gmap str str) : gmap str str :=
  match entries with
  | [] => videos
  | f :: rest =>
      collect_videos rest
        (if is_file f && bool_decide (lower (suffix (name f)) = lit ".mp4") then
           let videos1 :=
             match mp4_pattern (name f) with
             | Some g => <[g := name f]> videos
             | None => videos
             end in
           match transition_pattern (name f) with
           | Some (a, b) => <[a ++ [45] ++ b := name f]> videos1
           | None => videos1
           end
         else videos)
  end.

Definition scan_slides `{DigitTable} (directory : list DirEntry) : Catalog :=
  let slides := sort_by_num (collect_slides directory []) in
  let videos :=
    if path_exists directory cover_name then <[lit "1" := cover_name]> ∅ else ∅ in
  let videos := collect_videos directory videos in
  {| slides := slides; videos := videos; total := length slides |}.

End Scan.

(** ** The command line: [main] *)

Module Cli.

(** What [args.dir] names once made absolute: nothing ([os.path.exists] is
    false), something [iterdir] refuses with NotADirectoryError, or a
    directory with its entries in iteration order. *)
Inductive fs_node :=
  | Missing
  | NotADirectory
  | Listing (entries : list DirEntry).

(** The arguments of a run: [directory] is [os.path.abspath(args.dir)] and
    [node] what the file system has there. *)
Record Args := { directory : str; node : fs_node; output : str; title : str }.

(** What [generate_html] substitutes into its template. *)
Record Document := {
  doc_title : str;
  doc_slides : list str;
  doc_videos : gmap str str;
  doc_total : nat
}.

(** The lines [main] and [generate_html] print, by what they report. *)
Inductive message :=
  | Scanning (directory : str)
  | DirectoryMissing (directory : str)
  | NoSlides
  | FoundSlides (total : nat)
  | SlideName (filename : str)
  | MoreSlides (total : nat)
  | FoundVideos (videos : gmap str str)
  | Generated (output_path : str)
  | Done (output_path : str).

Inductive effect :=
  | Print (m : message)
  | WriteFile (output_path : str) (doc : Document).

(** [main] returns its exit code or lets an exception through. *)
Inductive outcome :=
  | Return (code : Z)
  | Raise.

(** [os.path.join(a, b)]. *)
Definition path_join (a b : str) : str :=
  match b with
  | 47 :: _ => b
  | _ =>
      match last a with
      | None => b
      | Some 47 => a ++ b
      | Some _ => a ++ [47] ++ b
      end
  end.

Definition generate_html (data : Scan.Catalog) (output_path : str) (title : str)
    : list effect :=
  let slides_json := Scan.path <$> Scan.slides data in
  let videos_json := Scan.videos data in
  [ WriteFile output_path
      {| doc_title := title; doc_slides := slides_json;
         doc_videos := videos_json; doc_total := Scan.total data |};
    Print (Generated output_path) ].

Definition main `{DigitTable} (args : Args) : outcome * list effect :=
  let log := [Print (Scanning (directory args))] in
  match node args with
  | Missing => (Return 1, log ++ [Print (DirectoryMissing (directory args))])
  | NotADirectory => (Raise, log)
  | Listing entries =>
      let data := Scan.scan_slides entries in
      match Scan.slides data with
      | [] => (Return 1, log ++ [Print NoSlides])
      | _ :: _ =>
          let log := log ++ [Print (FoundSlides (Scan.total data))] in
          let log :=
            log ++ ((fun s => Print (SlideName (Scan.filename s)))
                      <$> take 5 (Scan.slides data)) in
          let log :=
            if (5 <? Scan.total data)%nat
            then log ++ [Print (MoreSlides (Scan.total data))] else log in
          let log :=
            if bool_decide (Scan.videos data = ∅) then log
            else log ++ [Print (FoundVideos (Scan.videos data))] in
          let output_path := path_join (directory args) (output args) in
          let log := log ++ generate_html data output_path (title args) in
          (Return 0, log ++ [Print (Done output_path)])
      end
  end.

Definition writes_file (e : effect) : bool :=
  match e with WriteFile _ _ => true | Print _ => false end.

End Cli.

(** ** The player: class [SlideShowPlayer] *)

Module Player.

Local Open Scope Z_scope.

(** The [<video>] element: its [active] class, the properties the player
    sets, and whether [playVideo] has installed its two handlers. *)
Record Video := {
  active : bool;
  src : option str;
  loop : bool;
  paused : bool;
  onloadeddata : bool;
  onerror : bool
}.

(** The fields of the player and what it shows in the page.  An element that
    only carries a class is the flag of that class: [active] for the images,
    the thumbnails and [loadingEl], [visible] for [thumbnailsEl]; a button is
    its [disabled] property; [progressEl] is [style.width] in percent. *)
Record State := {
  slides : list str;
  videos : gmap str str;
  currentSlide : Z;
  isVideoPlaying : bool;
  showThumbnails : bool;
  imageElements : list bool;
  videoElement : Video;
  loadingEl : bool;
  currentIndicator : Z;
  progressEl : option float;
  prevBtn : bool;
  nextBtn : bool;
  thumbnails : list bool;
  thumbnailsEl : bool
}.

(** How a method ends: normally, or with the TypeError of reading
    [classList] of [undefined]; the fields keep what was assigned so far. *)
Inductive completion :=
  | Normal (s : State)
  | Throw (s : State).

(** [a[i]] for a JavaScript array: [undefined] outside of it. *)
Definition at_index {A} (a : list A) (i : Z) : option A :=
  if i <? 0 then None else a !! Z.to_nat i.

(** An integer as a JavaScript number (exact below 2^53). *)
Definition number (z : Z) : float :=
  if z <? 0 then PrimFloat.opp (PrimFloat.of_uint63 (Uint63.of_Z (- z)))
  else PrimFloat.of_uint63 (Uint63.of_Z z).

Definition set_videoElement (v : Video) (s : State) : State :=
  {| slides := slides s; videos := videos s; currentSlide := currentSlide s;
     isVideoPlaying := isVideoPlaying s; showThumbnails := showThumbnails s;
     imageElements := imageElements s; videoElement := v;
     loadingEl := loadingEl s; currentIndicator := currentIndicator s;
     progressEl := progressEl s; prevBtn := prevBtn s; nextBtn := nextBtn s;
     thumbnails := thumbnails s; thumbnailsEl := thumbnailsEl s |}.

Definition set_isVideoPlaying (b : bool) (s : State) : State :=
  {| slides := slides s; videos := videos s; currentSlide := currentSlide s;
     isVideoPlaying := b; showThumbnails := showThumbnails s;
     imageElements := imageElements s; videoElement := videoElement s;
     loadingEl := loadingEl s; currentIndicator := currentIndicator s;
     progressEl := progressEl s; prevBtn := prevBtn s; nextBtn := nextBtn s;
     thumbnails := thumbnails s; thumbnailsEl := thumbnailsEl s |}.

Definition set_loadingEl (b : bool) (s : State) : State :=
  {| slides := slides s; videos := videos s; currentSlide := currentSlide s;
     isVideoPlaying := isVideoPlaying s; showThumbnails := showThumbnails s;
     imageElements := imageElements s; videoElement := videoElement s;
     loadingEl := b; currentIndicator := currentIndicator s;
     progressEl := progressEl s; prevBtn := prevBtn s; nextBtn := nextBtn s;
     thumbnails := thumbnails s; thumbnailsEl := thumbnailsEl s |}.

Definition set_imageElements (l : list bool) (s : State) : State :=
  {| slides := slides s; videos := videos s; currentSlide := currentSlide s;
     isVideoPlaying := isVideoPlaying s; showThumbnails := showThumbnails s;
     imageElements := l; videoElement := videoElement s;
     loadingEl := loadingEl s; currentIndicator := currentIndicator s;
     progressEl := progressEl s; prevBtn := prevBtn s; nextBtn := nextBtn s;
     thumbnails := thumbnails s; thumbnailsEl := thumbnailsEl s |}.

(** [videoElement.pause()] and [videoElement.play()]. *)
Definition pause (v : Video) : Video :=
  {| active := active v; src := src v; loop := loop v; paused := true;
     onloadeddata := onloadeddata v; onerror := onerror v |}.

Definition play (v : Video) : Video :=
  {| active := active v; src := src v; loop := loop v; paused := false;
     onloadeddata := onloadeddata v; onerror := onerror v |}.

Definition updateUI (s : State) : State :=
  let progress :=
    PrimFloat.mul
      (PrimFloat.div (number (currentSlide s + 1))
                     (number (Z.of_nat (length (slides s)))))
      (number 100) in
  {| slides := slides s; videos := videos s; currentSlide := currentSlide s;
     isVideoPlaying := isVideoPlaying s; showThumbnails := showThumbnails s;
     imageElements := imageElements s; videoElement := videoElement s;
     loadingEl := loadingEl s;
     currentIndicator := currentSlide s + 1;
     progressEl := Some progress;
     prevBtn := currentSlide s =? 0;
     nextBtn := currentSlide s =? Z.of_nat (length (slides s)) - 1;
     thumbnails :=
       imap (fun i _ => Z.of_nat i =? currentSlide s) (thumbnails s);
     thumbnailsEl := thumbnailsEl s |}.

Definition showSlide (index : Z) (s : State) : completion :=
  if (index <? 0) || (index >=? Z.of_nat (length (slides s))) then Normal s
  else
    let hidden :=
      {| slides := slides s; videos := videos s;
         currentSlide := index;
         isVideoPlaying := false;
         showThumbnails := showThumbnails s;
         imageElements := (fun _ => false) <$> imageElements s;
         videoElement :=
           pause {| active := false; src := src (videoElement s);
                    loop := loop (videoElement s);
                    paused := paused (videoElement s);
                    onloadeddata := onloadeddata (videoElement s);
                    onerror := onerror (videoElement s) |};
         loadingEl := loadingEl s; currentIndicator := currentIndicator s;
         progressEl := progressEl s; prevBtn := prevBtn s; nextBtn := nextBtn s;
         thumbnails := thumbnails s; thumbnailsEl := thumbnailsEl s |} in
    match at_index (imageElements hidden) index with
    | None => Throw hidden
    | Some _ =>
        Normal (updateUI
          (set_imageElements
             (<[Z.to_nat index := true]> (imageElements hidden)) hidden))
    end.

Definition toggleVideo (s : State) : State :=
  if paused (videoElement s) then set_videoElement (play (videoElement s)) s
  else set_videoElement (pause (videoElement s)) s.

Definition nextSlide (s : State) : completion :=
  let s :=
    if isVideoPlaying s
    then set_isVideoPlaying false (set_videoElement (pause (videoElement s)) s)
    else s in
  if currentSlide s <? Z.of_nat (length (slides s)) - 1
  then showSlide (currentSlide s + 1) s
  else Normal s.

Definition previousSlide (s : State) : completion :=
  let s :=
    if isVideoPlaying s
    then set_isVideoPlaying false (set_videoElement (pause (videoElement s)) s)
    else s in
  if currentSlide s >? 0
  then showSlide (currentSlide s - 1) s
  else Normal s.

Definition goToSlide (index : Z) (s : State) : completion :=
  let s :=
    if isVideoPlaying s
    then set_isVideoPlaying false (set_videoElement (pause (videoElement s)) s)
    else s in
  showSlide index s.

Definition playVideo (videoPath : str) (s : State) : completion :=
  let s := set_loadingEl true s in
  match at_index (imageElements s) (currentSlide s) with
  | None => Throw s
  | Some _ =>
      let images := <[Z.to_nat (currentSlide s) := false]> (imageElements s) in
      let video :=
        {| active := true; src := Some videoPath;
           loop := currentSlide s =? 0;
           paused := paused (videoElement s);
           onloadeddata := true; onerror := true |} in
      Normal (set_videoElement video (set_imageElements images s))
  end.

(** A non-empty string is the only truthy value [videos[slideNum]] can
    have; a missing key gives [undefined]. *)
Definition onSlideClick (s : State) : completion :=
  let slideNum := toString (currentSlide s + 1) in
  if isVideoPlaying s then Normal (toggleVideo s)
  else
    match videos s !! slideNum with
    | Some (c :: p) => playVideo (c :: p) s
    | Some [] | None => nextSlide s
    end.

Definition onVideoEnded (s : State) : completion :=
  let s := set_isVideoPlaying false s in
  showSlide (currentSlide s) s.

(** The handler [playVideo] stores in [videoElement.onloadeddata]. *)
Definition loadeddata (s : State) : completion :=
  if onloadeddata (videoElement s) then
    let s := set_loadingEl false s in
    let s := set_videoElement (play (videoElement s)) s in
    Normal (set_isVideoPlaying true s)
  else Normal s.

(** The handler [playVideo] stores in [videoElement.onerror]. *)
Definition error (s : State) : completion :=
  if onerror (videoElement s) then
    let s := set_loadingEl false s in
    showSlide (currentSlide s) s
  else Normal s.

Definition toggleThumbnails (s : State) : State :=
  {| slides := slides s; videos := videos s; currentSlide := currentSlide s;
     isVideoPlaying := isVideoPlaying s;
     showThumbnails := negb (showThumbnails s);
     imageElements := imageElements s; videoElement := videoElement s;
     loadingEl := loadingEl s; currentIndicator := currentIndicator s;
     progressEl := progressEl s; prevBtn := prevBtn s; nextBtn := nextBtn s;
     thumbnails := thumbnails s;
     thumbnailsEl := negb (showThumbnails s) |}.

(** [new SlideShowPlayer()] on the page as written: the constructor, [init]
    and its [showSlide(0)]. *)
Definition new (slidesData : list str) (videosData : gmap str str) : completion :=
  showSlide 0
    {| slides := slidesData; videos := videosData;
       currentSlide := 0; isVideoPlaying := false; showThumbnails := false;
       imageElements := (fun _ => false) <$> slidesData;
       videoElement :=
         {| active := false; src := None; loop := false; paused := true;
            onloadeddata := false; onerror := false |};
       loadingEl := false; currentIndicator := 1; progressEl := None;
       prevBtn := false; nextBtn := false;
       thumbnails := (fun _ => false) <$> slidesData;
       thumbnailsEl := false |}.

(** The keys [bindEvents] listens to; [toggleFullscreen] changes the
    document, no field of the player. *)
Inductive key :=
  | ArrowLeft | ArrowUp | PageUp | ArrowRight | ArrowDown | PageDown
  | Space | Home | End_ | KeyF | KeyT | Escape | OtherKey.

Definition keydown (k : key) (s : State) : completion :=
  match k with
  | ArrowLeft | ArrowUp | PageUp => previousSlide s
  | ArrowRight | ArrowDown | PageDown => nextSlide s
  | Space => onSlideClick s
  | Home => goToSlide 0 s
  | End_ => goToSlide (Z.of_nat (length (slides s)) - 1) s
  | KeyF => Normal s
  | KeyT => Normal (toggleThumbnails s)
  | Escape => if showThumbnails s then Normal (toggleThumbnails s) else Normal s
  | OtherKey => Normal s
  end.

(** What can happen to the player: the user's inputs and the events of the
    video element.  [Next] and [Previous] are the buttons and the swipes,
    [JumpTo] a thumbnail, [PrimaryAction] a click on an image. *)
Inductive event :=
  | Next
  | Previous
  | JumpTo (index : Z)
  | PrimaryAction
  | ClickVideo
  | KeyDown (k : key)
  | VideoEnded
  | VideoLoaded
  | VideoError.

Definition dispatch (e : event) (s : State) : completion :=
  match e with
  | Next => nextSlide s
  | Previous => previousSlide s
  | JumpTo index => goToSlide index s
  | PrimaryAction => onSlideClick s
  | ClickVideo => Normal (toggleVideo s)
  | KeyDown k => keydown k s
  | VideoEnded => onVideoEnded s
  | VideoLoaded => loadeddata s
  | VideoError => error s
  end.

(** Events are handled one after the other, each to completion. *)
Fixpoint run (es : list event) (s : State) : completion :=
  match es with
  | [] => Normal s
  | e :: es' =>
      match dispatch e s with
      | Normal s' => run es' s'
      | Throw s' => Throw s'
      end
  end.

(** The player the generated page starts on a catalog. *)
Definition of_catalog (data : Scan.Catalog) : completion :=
  new (Scan.path <$> Scan.slides data) (Scan.videos data).

(** The two informal states of the specification.  [ShowingImage i]: slide
    [i] is current, its image is the one shown and no video is shown or
    playing.  [PlayingVideo i]: slide [i] is current and the video element,
    loading or playing, is shown in place of the image. *)
Definition ShowingImage (i : Z) (s : State) : Prop :=
  0 <= i < Z.of_nat (length (slides s))
  /\ currentSlide s = i
  /\ isVideoPlaying s = false
  /\ active (videoElement s) = false
  /\ imageElements s
     = imap (fun j _ => Z.of_nat j =? i) (slides s).

Definition PlayingVideo (i : Z) (s : State) : Prop :=
  0 <= i < Z.of_nat (length (slides s))
  /\ currentSlide s = i
  /\ active (videoElement s) = true
  /\ onloadeddata (videoElement s) = true
  /\ onerror (videoElement s) = true
  /\ imageElements s = (fun _ => false) <$> slides s.

End Player.

(** ** Vocabulary of the properties *)

Definition ascii_digitb (c : N) : bool := (48 <=? c) && (c <=? 57).

(** The name of the [k]-th image, [k.png]. *)
Definition image_name (k : N) : str := to_decimal k ++ lit ".png".

(** The slide the first loop appends for an entry, if any. *)
Definition slide_of `{DigitTable} (f : DirEntry) : option Scan.Slide :=
  if is_file f then
    match png_pattern (name f) with
    | Some g => Some {| Scan.num := py_int g; Scan.filename := name f; Scan.path := name f |}
    | None => None
    end
  else None.

(** The names of the image files of a directory, in iteration order. *)
Definition matching_images `{DigitTable} (directory : list DirEntry) : list str :=
  omap (fun f => match slide_of f with Some _ => Some (name f) | None => None end)
       directory.

(** The slide of the image [k.png]. *)
Definition numbered_slide (k : N) : Scan.Slide :=
  {| Scan.num := k; Scan.filename := image_name k; Scan.path := image_name k |}.

(** The numbers 1 to [n]. *)
Definition numbered (n : nat) : list N := N.of_nat <$> seq 1 n.

Definition ascending : Scan.Slide -> Scan.Slide -> Prop :=
  fun a b => Scan.num a < Scan.num b.

(** Whether the directory holds a regular file [1.mp4]. *)
Definition has_first_video (directory : list DirEntry) : bool :=
  existsb (fun f => is_file f && bool_decide (name f = lit "1.mp4")) directory.

Definition non_descending : Scan.Slide -> Scan.Slide -> Prop :=
  fun a b => Scan.num a <= Scan.num b.

(** The key the second loop binds for an entry, if any: the digits of
    [N.mp4], or [N-M] for [N-M.mp4]. *)
Definition video_key `{DigitTable} (f : DirEntry) : option str :=
  if is_file f && bool_decide (lower (suffix (name f)) = lit ".mp4") then
    match mp4_pattern (name f), transition_pattern (name f) with
    | _, Some (a, b) => Some (a ++ [45] ++ b)
    | Some g, None => Some g
    | None, None => None
    end
  else None.

(** Whether some entry of the directory binds the key [k]. *)
Definition binds_key `{DigitTable} (directory : list DirEntry) (k : str) : bool :=
  existsb (fun f => bool_decide (video_key f = Some k)) directory.

Module PlayerSpec.
Import Player.
Local Open Scope Z_scope.

(** The number of slides, as the number [slides.length]. *)
Definition len (s : State) : Z := Z.of_nat (length (slides s)).

(** The progress of the specification: [(currentIndex + 1) / len * 100],
    in the arithmetic of JavaScript numbers. *)
Definition percent (currentIndex len : Z) : float :=
  PrimFloat.mul (PrimFloat.div (number (currentIndex + 1)) (number len)) (number 100).

(** The value of a finite float as a fraction. *)
Definition exact (f : float) : option Q :=
  match Prim2SF f with
  | S754_zero _ => Some 0%Q
  | S754_finite sign m e =>
      let v := (inject_Z (Z.pos m) * Qpower 2 e)%Q in
      Some (if sign then Qopp v else v)
  | _ => None
  end.

(** What holds of the player between two events once it is constructed on
    a catalog with slides. *)
Definition Inv (s : State) : Prop :=
  0 <= currentSlide s < len s
  /\ length (imageElements s) = length (slides s)
  /\ prevBtn s = (currentSlide s =? 0)
  /\ nextBtn s = (currentSlide s =? len s - 1)
  /\ progressEl s = Some (percent (currentSlide s) (len s))
  /\ currentIndicator s = currentSlide s + 1.

(** The fields no method assigns. *)
Definition same_catalog (s s' : State) : Prop :=
  slides s' = slides s /\ videos s' = videos s.

(** Leaving a video: what the three navigation methods do first. *)
Definition cancel (s : State) : State :=
  if isVideoPlaying s
  then set_isVideoPlaying false (set_videoElement (pause (videoElement s)) s)
  else s.

(** What the page displays: the video in place of every image, or the image
    of the current slide and nothing else. *)
Definition Shown (s : State) : Prop :=
  (active (videoElement s) = true
   /\ imageElements s = (fun _ => false) <$> slides s)
  \/ (active (videoElement s) = false
      /\ imageElements s
         = imap (fun j _ => Z.of_nat j =? currentSlide s) (slides s)).

(** The thumbnail strip follows the player: the thumbnail of the current
    slide is the active one and the strip is visible when [showThumbnails]
    says so. *)
Definition UiSync (s : State) : Prop :=
  thumbnails s = imap (fun j _ => Z.of_nat j =? currentSlide s) (slides s)
  /\ thumbnailsEl s = showThumbnails s.

Definition Good (s : State) : Prop := Inv s /\ Shown s /\ UiSync s.

Definition state_of (c : completion) : State :=
  match c with Normal s | Throw s => s end.

Definition and_then (c : completion) (e : event) : completion :=
  match c with
  | Normal s => dispatch e s
  | Throw s => Throw s
  end.

Definition summary (c : completion) : option (Z * bool * bool * bool) :=
  match c with
  | Normal s =>
      Some (currentSlide s, isVideoPlaying s,
            active (videoElement s), loop (videoElement s))
  | Throw _ => None
  end.

End PlayerSpec.

(** ** Sample inputs *)

(** The table with the ASCII digits only. *)
#[local] Instance ascii_table : DigitTable.
Proof.
  refine {| digit_value := ascii_digit |}.
  - reflexivity.
  - intros c v. unfold ascii_digit.
    destruct ((48 <=? c) && (c <=? 57))%N eqn:E; [|discriminate].
    apply andb_true_iff in E as [E1 E2].
    apply N.leb_le in E1, E2. intros [= <-]. lia.
Defined.

Definition file (s : string) : DirEntry := {| name := lit s; kind := RegularFile |}.

Definition cover_file : DirEntry := {| name := cover_name; kind := RegularFile |}.

Definition slide (n : N) (s : string) : Scan.Slide :=
  {| Scan.num := n; Scan.filename := lit s; Scan.path := lit s |}.

Definition three_slides : list str := [lit "1.png"; lit "2.png"; lit "3.png"].

Definition cover_only : gmap str str := <[lit "1" := cover_name]> ∅.

(** A directory with three images, the cover video and other files. *)
Definition talk_directory : list DirEntry :=
  [file "3.png"; file "notes.txt"; file "1.png"; cover_file; file "2.png"].

(** A directory with both candidates for the video of the first slide. *)
Definition two_first_videos : list DirEntry :=
  [file "1.png"; cover_file; file "1.mp4"].

(** A directory without images. *)
Definition no_images : list DirEntry := [file "notes.txt"; file "cover.jpg"].

(** The player on three slides without videos, as constructed. *)
Definition showing_first : Player.State :=
  PlayerSpec.state_of (Player.new three_slides ∅).

(** The player of [talk_directory], as constructed. *)
Definition talk_player : Player.State :=
  PlayerSpec.state_of (Player.of_catalog (Scan.scan_slides talk_directory)).

(** The player on three slides after the primary action started the cover
    video, and after that video was loaded. *)
Definition loading_first : Player.State :=
  PlayerSpec.state_of
    (PlayerSpec.and_then (Player.new three_slides cover_only) Player.PrimaryAction).

Definition playing_first : Player.State :=
  PlayerSpec.state_of
    (PlayerSpec.and_then (Player.Normal loading_first) Player.VideoLoaded).

Definition some_events : list Player.event :=
  [Player.PrimaryAction; Player.VideoLoaded; Player.JumpTo 7; Player.Next;
   Player.KeyDown Player.End_; Player.Next; Player.Previous].

(** [talk_directory] read in another order. *)
Definition talk_directory_again : list DirEntry := List.rev talk_directory.

(** A directory with the video of the second slide, a zero-padded name and
    a transition video. *)
Definition numbered_videos : list DirEntry :=
  [file "2.png"; file "2.mp4"; file "1.png"; file "03.mp4"; file "1-2.mp4";
   file "3.png"; {| name := lit "4.mp4"; kind := Directory |}].

(** The player of [numbered_videos], as constructed and on its last slide. *)
Definition numbered_player : Player.State :=
  PlayerSpec.state_of (Player.of_catalog (Scan.scan_slides numbered_videos)).

Definition numbered_player_last : Player.State :=
  PlayerSpec.state_of (Player.goToSlide 2 numbered_player).

(** The player on three slides when the user moved on before the cover
    video was loaded. *)
Definition moved_on : Player.State :=
  PlayerSpec.state_of
    (PlayerSpec.and_then (Player.Normal loading_first) Player.Next).

(** The arguments of a run on [talk_directory]. *)
Definition talk_args : Cli.Args :=
  {| Cli.directory := lit "/talk"; Cli.node := Cli.Listing talk_directory;
     Cli.output := lit "slideshow.html"; Cli.title := lit "Talk" |}.

(** ** Running the definitions *)

Example scan_numeric_order :
  Scan.slides (Scan.scan_slides [file "10.png"; file "notes.txt"; file "2.png"])
  = [slide 2 "2.png"; slide 10 "10.png"].
Proof. vm_compute. reflexivity. Qed.

Example scan_videos_example :
  let d := [file "1.png"; cover_file; file "3.mp4"; file "2-3.mp4"; file "4.MP4"] in
  Scan.videos (Scan.scan_slides d) !! lit "1" = Some cover_name
  /\ Scan.videos (Scan.scan_slides d) !! lit "3" = Some (lit "3.mp4")
  /\ Scan.videos (Scan.scan_slides d) !! lit "2-3" = Some (lit "2-3.mp4")
  /\ Scan.videos (Scan.scan_slides d) !! lit "4" = None.
Proof. vm_compute. repeat split. Qed.

(** A name ending in a newline passes the image pattern, as [$] allows, but
    not the suffix test of the video loop. *)
Example trailing_newline :
  png_pattern (lit "1.png" ++ [10%N]) = Some (lit "1")
  /\ Scan.videos (Scan.scan_slides [{| name := lit "1.mp4" ++ [10%N]; kind := RegularFile |}])
     = ∅.
Proof. vm_compute. split; reflexivity. Qed.

(** On a directory with images [main] writes the document and returns 0. *)
Example main_example :
  Cli.main {| Cli.directory := lit "/talk"; Cli.node := Cli.Listing talk_directory;
              Cli.output := lit "slideshow.html"; Cli.title := lit "Talk" |}
  = (Cli.Return 0,
     [ Cli.Print (Cli.Scanning (lit "/talk"));
       Cli.Print (Cli.FoundSlides 3);
       Cli.Print (Cli.SlideName (lit "1.png"));
       Cli.Print (Cli.SlideName (lit "2.png"));
       Cli.Print (Cli.SlideName (lit "3.png"));
       Cli.Print (Cli.FoundVideos cover_only);
       Cli.WriteFile (lit "/talk/slideshow.html")
         {| Cli.doc_title := lit "Talk"; Cli.doc_slides := three_slides;
            Cli.doc_videos := cover_only; Cli.doc_total := 3 |};
       Cli.Print (Cli.Generated (lit "/talk/slideshow.html"));
       Cli.Print (Cli.Done (lit "/talk/slideshow.html")) ]).
Proof. vm_compute. reflexivity. Qed.

(** The walk of the specification's example catalog. *)
Example walk_example :
  let s0 := Player.new three_slides cover_only in
  let s1 := PlayerSpec.and_then s0 Player.PrimaryAction in
  let s2 := PlayerSpec.and_then s1 Player.VideoLoaded in
  let s3 := PlayerSpec.and_then s2 Player.VideoEnded in
  let s4 := PlayerSpec.and_then s3 Player.Next in
  let s5 := PlayerSpec.and_then s4 Player.PrimaryAction in
  let s6 := PlayerSpec.and_then s5 Player.Next in
  PlayerSpec.summary <$> [s0; s1; s2; s3; s4; s5; s6]
  = [ Some (0, false, false, false)%Z; Some (0, false, true, true)%Z;
      Some (0, true, true, true)%Z; Some (0, false, false, true)%Z;
      Some (1, false, false, true)%Z; Some (2, false, false, true)%Z;
      Some (2, false, false, true)%Z ].
Proof. vm_compute. reflexivity. Qed.

(** On an empty catalog, which [main] never hands over, the constructor
    shows nothing and starting a video raises. *)
Example empty_catalog_example :
  PlayerSpec.summary (Player.new [] cover_only) = Some (0, false, false, false)%Z
  /\ PlayerSpec.summary
       (PlayerSpec.and_then (Player.new [] cover_only) Player.PrimaryAction)
     = None.
Proof. vm_compute. split; reflexivity. Qed.

(** ** Decimal numerals and the patterns *)

Section Patterns.
Context `{DigitTable}.

Lemma is_digit_ascii c : c < 128 -> is_digit c = ascii_digitb c.
Proof.
  intros Hc. unfold is_digit, ascii_digitb.
  rewrite (digit_value_ascii c Hc). unfold ascii_digit.
  destruct ((48 <=? c) && (c <=? 57)); reflexivity.
Qed.

Lemma digit_value_numeral d : d < 10 -> digit_value (48 + d) = Some d.
Proof.
  intros Hd. rewrite digit_value_ascii by lia. unfold ascii_digit.
  replace (48 <=? 48 + d) with true by (symmetry; apply N.leb_le; lia).
  replace (48 + d <=? 57) with true by (symmetry; apply N.leb_le; lia).
  simpl. f_equal. lia.
Qed.

Lemma is_digit_numeral d : d < 10 -> is_digit (48 + d) = true.
Proof. intros Hd. unfold is_digit. by rewrite digit_value_numeral. Qed.

Lemma py_int_snoc s c :
  py_int (s ++ [c]) = 10 * py_int s + default 0 (digit_value c).
Proof. unfold py_int. by rewrite fold_left_app. Qed.

Lemma decimal_digits_value fuel n :
  n < 2 ^ N.of_nat fuel -> py_int (decimal_digits fuel n) = n.
Proof.
  revert n. induction fuel as [|fuel IH]; intros n Hn.
  - simpl in *. unfold py_int. simpl. lia.
  - cbn [decimal_digits]. destruct (n <? 10) eqn:E.
    + apply N.ltb_lt in E. unfold py_int. cbn [fold_left].
      rewrite digit_value_numeral by done. simpl. lia.
    + apply N.ltb_ge in E. rewrite py_int_snoc.
      rewrite digit_value_numeral by (apply N.mod_lt; lia).
      rewrite IH.
      * unfold default, id. pose proof (N.div_mod n 10 ltac:(lia)) as Hdm. lia.
      * rewrite Nat2N.inj_succ, N.pow_succ_r' in Hn.
        apply N.Div0.div_lt_upper_bound. lia.
Qed.

Lemma decimal_digits_digits fuel n : Forall (fun c => is_digit c = true) (decimal_digits fuel n).
Proof.
  revert n. induction fuel as [|fuel IH]; intros n; cbn [decimal_digits].
  - constructor.
  - destruct (n <? 10) eqn:E.
    + apply N.ltb_lt in E. repeat constructor. by apply is_digit_numeral.
    + apply Forall_app. split; [apply IH|].
      repeat constructor. apply is_digit_numeral. apply N.mod_lt. lia.
Qed.

Lemma decimal_digits_nonempty fuel n : decimal_digits (S fuel) n <> [].
Proof.
  cbn [decimal_digits]. destruct (n <? 10); [done|].
  intros E. apply app_eq_nil in E as [_ E]. done.
Qed.

Lemma to_decimal_value n : py_int (to_decimal n) = n.
Proof.
  apply decimal_digits_value.
  rewrite Nat2N.inj_succ, N2Nat.id.
  destruct (N.eq_dec n 0) as [->|Hn]; [done|].
  apply N.log2_spec. lia.
Qed.

Lemma to_decimal_digits n : Forall (fun c => is_digit c = true) (to_decimal n).
Proof. apply decimal_digits_digits. Qed.

Lemma to_decimal_nonempty n : to_decimal n <> [].
Proof. apply decimal_digits_nonempty. Qed.

Lemma span_digits_eq s d r : span_digits s = (d, r) -> s = d ++ r.
Proof.
  revert d r. induction s as [|c s IH]; intros d r; cbn [span_digits].
  - by intros [= <- <-].
  - destruct (is_digit c).
    + destruct (span_digits s) as [d' r'] eqn:E. intros [= <- <-].
      simpl. f_equal. by apply IH.
    + by intros [= <- <-].
Qed.

Lemma span_digits_all s d r : span_digits s = (d, r) -> Forall (fun c => is_digit c = true) d.
Proof.
  revert d r. induction s as [|c s IH]; intros d r; cbn [span_digits].
  - intros [= <- <-]. constructor.
  - destruct (is_digit c) eqn:Ec.
    + destruct (span_digits s) as [d' r'] eqn:E. intros [= <- <-].
      constructor; [done|]. by eapply IH.
    + intros [= <- <-]. constructor.
Qed.

(** A digit run followed by something that does not start with a digit is
    what [\d+] takes. *)
Lemma span_digits_app d r :
  Forall (fun c => is_digit c = true) d ->
  match r with [] => True | c :: _ => is_digit c = false end ->
  span_digits (d ++ r) = (d, r).
Proof.
  intros Hd Hr. induction Hd as [|c d Hc Hd IH]; simpl.
  - destruct r as [|c r]; [done|]. simpl. by rewrite Hr.
  - by rewrite Hc, IH.
Qed.

Lemma strip_prefix_app p r : strip_prefix p (p ++ r) = Some r.
Proof.
  induction p as [|a p IH]; simpl; [by destruct r|].
  by rewrite N.eqb_refl.
Qed.

Lemma strip_prefix_inv p s r : strip_prefix p s = Some r -> s = p ++ r.
Proof.
  revert s. induction p as [|a p IH]; intros s; simpl.
  - destruct s; by intros [= <-].
  - destruct s as [|b s]; [done|].
    destruct (a =? b) eqn:E; [|done].
    apply N.eqb_eq in E as ->. intros Hs. simpl. f_equal. by apply IH.
Qed.

Lemma digits_then_intro ext d r :
  d <> [] ->
  Forall (fun c => is_digit c = true) d ->
  match ext with [] => False | c :: _ => is_digit c = false end ->
  at_end r = true ->
  digits_then ext (d ++ ext ++ r) = Some d.
Proof.
  intros Hne Hd Hext Hr. unfold digits_then.
  rewrite span_digits_app; [|done|by destruct ext].
  destruct d; [done|]. by rewrite strip_prefix_app, Hr.
Qed.

Lemma digits_then_inv ext s d :
  digits_then ext s = Some d ->
  d <> [] /\ Forall (fun c => is_digit c = true) d
  /\ exists r, s = d ++ ext ++ r /\ at_end r = true.
Proof.
  unfold digits_then. destruct (span_digits s) as [d' r'] eqn:E.
  destruct d' as [|c d']; [done|].
  destruct (strip_prefix ext r') as [r|] eqn:Es; [|done].
  destruct (at_end r) eqn:Er; [|done].
  intros [= <-]. split; [done|]. split; [by eapply span_digits_all|].
  exists r. split; [|done].
  apply span_digits_eq in E. apply strip_prefix_inv in Es. by subst.
Qed.

Lemma png_pattern_image_name k : png_pattern (image_name k) = Some (to_decimal k).
Proof.
  unfold png_pattern, image_name.
  rewrite <- (app_nil_r (lit ".png")) at 2.
  apply digits_then_intro.
  - apply to_decimal_nonempty.
  - apply to_decimal_digits.
  - change (is_digit 46 = false). by rewrite is_digit_ascii.
  - done.
Qed.

Lemma png_pattern_nonempty n g : png_pattern n = Some g -> n <> [].
Proof.
  intros Hg. apply digits_then_inv in Hg as (Hne & _ & r & -> & _).
  by destruct g.
Qed.

End Patterns.

(** ** The slide sequence of the catalog *)

Section Slides.
Context `{DigitTable}.

Lemma collect_slides_omap entries acc :
  Scan.collect_slides entries acc = acc ++ omap slide_of entries.
Proof.
  revert acc. induction entries as [|f rest IH]; intros acc.
  - simpl. by rewrite app_nil_r.
  - cbn [Scan.collect_slides omap list_omap]. rewrite IH. unfold slide_of.
    destruct (is_file f); [|done].
    destruct (png_pattern (name f)); [|done].
    by rewrite <- app_assoc.
Qed.

Lemma slide_of_image_name f k :
  slide_of f = Some (numbered_slide k) <-> is_file f = true /\ name f = image_name k.
Proof.
  unfold slide_of, numbered_slide. split.
  - destruct (is_file f); [|done].
    destruct (png_pattern (name f)); [|done]. by intros [= _ ->].
  - intros [-> ->]. by rewrite png_pattern_image_name, to_decimal_value.
Qed.

(** The slides collected from a directory whose image files are a
    rearrangement of [names]. *)
Lemma omap_slide_of_perm directory ks :
  matching_images directory ≡ₚ image_name <$> ks ->
  omap slide_of directory ≡ₚ numbered_slide <$> ks.
Proof.
  revert ks. induction directory as [|f rest IH]; intros ks.
  - cbn. intros Hp. apply Permutation_nil in Hp.
    apply fmap_nil_inv in Hp as ->. done.
  - cbn [matching_images omap list_omap].
    destruct (slide_of f) as [s|] eqn:Es; [|by apply IH].
    intros Hp.
    assert (name f ∈ image_name <$> ks) as Hin.
    { rewrite <- Hp. by left. }
    apply list_elem_of_fmap in Hin as (k & Hk & Hkin).
    apply list_elem_of_split in Hkin as (k1 & k2 & ->).
    rewrite fmap_app, fmap_cons, <- Hk in Hp.
    rewrite <- Permutation_middle in Hp. apply Permutation_cons_inv in Hp.
    rewrite <- fmap_app in Hp. apply IH in Hp.
    rewrite fmap_app, fmap_cons, <- Permutation_middle, <- fmap_app.
    assert (s = numbered_slide k) as ->; [|by constructor].
    assert (slide_of f = Some (numbered_slide k)) as Hs.
    { apply slide_of_image_name. split; [|done].
      unfold slide_of in Es. by destruct (is_file f). }
    congruence.
Qed.

(** *** The sort *)

Lemma insert_by_num_comm x y l :
  Scan.num x <> Scan.num y ->
  Scan.insert_by_num x (Scan.insert_by_num y l)
  = Scan.insert_by_num y (Scan.insert_by_num x l).
Proof.
  intros Hxy.
  induction l as [|z l IH]; simpl;
    repeat (match goal with
            | |- context [?a <=? ?b] => destruct (N.leb_spec a b); simpl
            end);
    try lia; try done.
  by rewrite IH.
Qed.

Lemma insert_by_num_perm x l : Scan.insert_by_num x l ≡ₚ x :: l.
Proof.
  induction l as [|y l IH]; simpl; [done|].
  destruct (Scan.num x <=? Scan.num y); [done|].
  rewrite IH. apply Permutation_swap.
Qed.

Lemma sort_by_num_perm l : Scan.sort_by_num l ≡ₚ l.
Proof.
  induction l as [|x l IH]; simpl; [done|].
  by rewrite insert_by_num_perm, IH.
Qed.

(** With distinct keys the sort does not depend on the order it is given
    the slides in. *)
Lemma sort_by_num_order_free l l' :
  l ≡ₚ l' -> NoDup (Scan.num <$> l) -> Scan.sort_by_num l = Scan.sort_by_num l'.
Proof.
  induction 1 as [|x l l' Hp IH|x y l|l l' l'' Hp1 IH1 Hp2 IH2]; intros Hnd.
  - done.
  - simpl. rewrite IH; [done|]. by apply NoDup_cons_1_2 in Hnd.
  - simpl. apply insert_by_num_comm.
    rewrite !fmap_cons in Hnd. apply NoDup_cons in Hnd as [Hy _].
    intros E. apply Hy. rewrite E. by left.
  - rewrite IH1 by done. apply IH2. by rewrite <- Hp1.
Qed.

Lemma sort_by_num_ascending l :
  StronglySorted ascending l -> Scan.sort_by_num l = l.
Proof.
  induction 1 as [|x l Hl IH Hx]; simpl; [done|].
  rewrite IH. destruct l as [|y l]; [done|]. simpl.
  apply Forall_cons in Hx as [Hxy _]. unfold ascending in Hxy.
  apply N.lt_le_incl, N.leb_le in Hxy. by rewrite Hxy.
Qed.

(** Stability: the slides of one key keep the order they were given in. *)
Lemma filter_insert_by_num k x l :
  filter (fun s => Scan.num s = k) (Scan.insert_by_num x l)
  = filter (fun s => Scan.num s = k) (x :: l).
Proof.
  induction l as [|y l IH]; simpl; [done|].
  destruct (Scan.num x <=? Scan.num y) eqn:E; [done|].
  apply N.leb_gt in E.
  rewrite (filter_cons _ y), IH, !(filter_cons _ x), (filter_cons _ y).
  repeat case_decide; try done. lia.
Qed.

Lemma filter_sort_by_num k l :
  filter (fun s => Scan.num s = k) (Scan.sort_by_num l)
  = filter (fun s => Scan.num s = k) l.
Proof.
  induction l as [|x l IH]; simpl; [done|].
  by rewrite filter_insert_by_num, !(filter_cons _ x), IH.
Qed.

Lemma numbered_ascending n :
  StronglySorted ascending (numbered_slide <$> numbered n).
Proof.
  unfold numbered. generalize 1%nat as a.
  induction n as [|n IH]; intros a; simpl; constructor.
  - apply IH.
  - apply Forall_forall. intros s Hs.
    apply list_elem_of_fmap in Hs as (k & -> & Hk).
    apply list_elem_of_fmap in Hk as (j & -> & Hj).
    apply list_elem_of_In, in_seq in Hj. unfold ascending. simpl. lia.
Qed.

Lemma ascending_NoDup l : StronglySorted ascending l -> NoDup (Scan.num <$> l).
Proof.
  induction 1 as [|x l Hl IH Hx]; simpl; constructor; [|done].
  intros Hin. apply list_elem_of_fmap in Hin as (y & Hy & Hin).
  rewrite Forall_forall in Hx. apply Hx in Hin.
  unfold ascending in Hin. lia.
Qed.

End Slides.

(** ** The video map of the catalog *)

Section Videos.
Context `{DigitTable}.

Lemma at_end_inv r : at_end r = true -> r = [] \/ r = [10].
Proof.
  destruct r as [|c [|c' r]]; [by left| |].
  - destruct (decide (c = 10)) as [->|Hc]; [by right|].
    intros Hr. exfalso. apply Hc.
    unfold at_end in Hr. repeat case_match; congruence.
  - intros Hr. unfold at_end in Hr. repeat case_match; congruence.
Qed.

Lemma mp4_pattern_first : mp4_pattern (lit "1.mp4") = Some (lit "1").
Proof.
  apply (digits_then_intro (lit ".mp4") (lit "1") []); try done.
  - repeat constructor. by rewrite is_digit_ascii.
  - change (is_digit 46 = false). by rewrite is_digit_ascii.
Qed.

Lemma transition_pattern_first : transition_pattern (lit "1.mp4") = None.
Proof.
  unfold transition_pattern.
  rewrite (span_digits_app (lit "1") (lit ".mp4")); [done| |].
  - repeat constructor. by rewrite is_digit_ascii.
  - change (is_digit 46 = false). by rewrite is_digit_ascii.
Qed.

Lemma transition_key_not_first a b : a ++ [45] ++ b <> lit "1".
Proof. destruct a as [|c [|c' a]]; done. Qed.

Lemma mp4_pattern_first_inv n :
  mp4_pattern n = Some (lit "1") ->
  lower (suffix n) = lit ".mp4" ->
  n = lit "1.mp4".
Proof.
  intros Hm Hs. apply digits_then_inv in Hm as (_ & _ & r & -> & Hr).
  apply at_end_inv in Hr as [-> | ->]; [done|].
  vm_compute in Hs. done.
Qed.

(** What the second loop leaves under the key ["1"]. *)
Lemma collect_videos_first entries m :
  Scan.collect_videos entries m !! lit "1"
  = if has_first_video entries then Some (lit "1.mp4") else m !! lit "1".
Proof.
  revert m. induction entries as [|f rest IH]; intros m; [done|].
  cbn [Scan.collect_videos has_first_video existsb]. rewrite IH. clear IH.
  fold (has_first_video rest).
  destruct (is_file f) eqn:Ef; cbn [andb orb]; [|done].
  destruct (decide (name f = lit "1.mp4")) as [Hn|Hn].
  - rewrite (bool_decide_eq_true_2 _ Hn), Hn. cbn [orb].
    rewrite bool_decide_eq_true_2 by (by vm_compute).
    rewrite mp4_pattern_first, transition_pattern_first.
    rewrite lookup_insert_eq. by destruct (has_first_video rest).
  - rewrite (bool_decide_eq_false_2 _ Hn). cbn [orb].
    destruct (has_first_video rest); [done|].
    destruct (decide (lower (suffix (name f)) = lit ".mp4")) as [Hs|Hs];
      [rewrite (bool_decide_eq_true_2 _ Hs)
      |by rewrite (bool_decide_eq_false_2 _ Hs)].
    assert (forall g, mp4_pattern (name f) = Some g -> g <> lit "1") as Hg.
    { intros g Hm ->. apply Hn. by apply mp4_pattern_first_inv. }
    destruct (transition_pattern (name f)) as [[a b]|].
    + rewrite lookup_insert_ne by apply transition_key_not_first.
      destruct (mp4_pattern (name f)) as [g|]; [|done].
      rewrite lookup_insert_ne; [done|]. by apply Hg.
    + destruct (mp4_pattern (name f)) as [g|]; [|done].
      rewrite lookup_insert_ne; [done|]. by apply Hg.
Qed.

(** Every bound video is a file name, so not the empty string. *)
Lemma collect_videos_named entries m :
  map_Forall (fun _ v => v <> []) m ->
  map_Forall (fun _ v => v <> []) (Scan.collect_videos entries m).
Proof.
  revert m. induction entries as [|f rest IH]; intros m Hm; [done|].
  cbn [Scan.collect_videos]. apply IH.
  destruct (is_file f && bool_decide (lower (suffix (name f)) = lit ".mp4"));
    [|done].
  assert (map_Forall (fun _ v => v <> [])
            match mp4_pattern (name f) with
            | Some g => <[g:=name f]> m
            | None => m
            end) as Hm1.
  { destruct (mp4_pattern (name f)) as [g|] eqn:Eg; [|done].
    apply map_Forall_insert_2; [|done].
    apply digits_then_inv in Eg as (Hg & _ & r & -> & _). by destruct g. }
  destruct (transition_pattern (name f)) as [[a b]|] eqn:Et; [|done].
  apply map_Forall_insert_2; [|done].
  unfold transition_pattern in Et.
  destruct (span_digits (name f)) as [d1 r] eqn:Es.
  apply span_digits_eq in Es as ->. by destruct d1.
Qed.

Lemma scan_slides_videos_named directory k v :
  Scan.videos (Scan.scan_slides directory) !! k = Some v -> v <> [].
Proof.
  cbn [Scan.scan_slides Scan.videos]. revert k v.
  apply collect_videos_named.
  destruct (Scan.path_exists directory cover_name).
  - apply map_Forall_insert_2; [done|]. apply map_Forall_empty.
  - apply map_Forall_empty.
Qed.

End Videos.

(** ** The player *)

Section PlayerFacts.
Import Player PlayerSpec.
Local Open Scope Z_scope.

Lemma same_catalog_trans s1 s2 s3 :
  same_catalog s1 s2 -> same_catalog s2 s3 -> same_catalog s1 s3.
Proof. unfold same_catalog. intros [? ?] [? ?]. split; congruence. Qed.

Lemma shown_image {A} (images : list bool) (sl : list A) (i : Z) :
  length images = length sl ->
  0 <= i < Z.of_nat (length sl) ->
  <[Z.to_nat i := true]> ((fun _ => false) <$> images)
  = imap (fun j _ => Z.of_nat j =? i) sl.
Proof.
  intros Hlen Hi. apply list_eq. intros j.
  rewrite list_lookup_imap.
  destruct (decide (j = Z.to_nat i)) as [->|Hj].
  - rewrite list_lookup_insert_eq by (rewrite length_fmap; lia).
    destruct (lookup_lt_is_Some_2 sl (Z.to_nat i) ltac:(lia)) as [x ->].
    simpl. f_equal. symmetry. apply Z.eqb_eq. lia.
  - rewrite list_lookup_insert_ne by done.
    rewrite list_lookup_fmap.
    destruct (decide (j < length sl)%nat) as [Hlt|Hge].
    + destruct (lookup_lt_is_Some_2 sl j Hlt) as [x ->].
      destruct (lookup_lt_is_Some_2 images j ltac:(lia)) as [y ->].
      simpl. f_equal. symmetry. apply Z.eqb_neq. lia.
    + rewrite !lookup_ge_None_2 by lia. done.
Qed.

Lemma at_index_in_range {A} (a : list A) (i : Z) :
  0 <= i < Z.of_nat (length a) -> is_Some (at_index a i).
Proof.
  intros Hi. unfold at_index.
  destruct (Z.ltb_spec i 0); [lia|].
  apply lookup_lt_is_Some_2. lia.
Qed.

Lemma showSlide_out_of_range index s :
  index < 0 \/ len s <= index -> showSlide index s = Normal s.
Proof.
  intros Hi. unfold showSlide, len in *.
  destruct (Z.ltb_spec index 0); [done|].
  destruct (Z.geb_spec index (Z.of_nat (length (slides s)))); [done|lia].
Qed.

(** In range, [showSlide] shows the image of [index] and nothing else. *)
Lemma showSlide_in_range index s :
  0 <= index < len s ->
  length (imageElements s) = length (slides s) ->
  exists s',
    showSlide index s = Normal s'
    /\ Inv s' /\ same_catalog s s' /\ ShowingImage index s'
    /\ showThumbnails s' = showThumbnails s
    /\ loadingEl s' = loadingEl s.
Proof.
  intros Hi Hlen. unfold showSlide, len in *.
  destruct (Z.ltb_spec index 0); [lia|].
  destruct (Z.geb_spec index (Z.of_nat (length (slides s)))); [lia|].
  cbn [orb imageElements].
  destruct (at_index_in_range ((fun _ => false) <$> imageElements s) index)
    as [b ->]; [rewrite length_fmap; lia|].
  eexists. split; [reflexivity|].
  unfold Inv, same_catalog, ShowingImage, len. simpl.
  rewrite length_insert, length_fmap.
  repeat split; try done; try lia.
  by apply shown_image.
Qed.

Lemma cancel_Inv s : Inv s -> Inv (cancel s) /\ same_catalog s (cancel s).
Proof. unfold cancel. by destruct (isVideoPlaying s). Qed.

Lemma cancel_fields s :
  currentSlide (cancel s) = currentSlide s
  /\ slides (cancel s) = slides s
  /\ imageElements (cancel s) = imageElements s
  /\ showThumbnails (cancel s) = showThumbnails s.
Proof. unfold cancel. by destruct (isVideoPlaying s). Qed.

Lemma nextSlide_Inv s :
  Inv s -> exists s', nextSlide s = Normal s' /\ Inv s' /\ same_catalog s s'.
Proof.
  intros Hs. unfold nextSlide. fold (cancel s).
  destruct (cancel_Inv s Hs) as [Hc Hcc].
  destruct (Z.ltb_spec (currentSlide (cancel s))
              (Z.of_nat (length (slides (cancel s))) - 1)) as [Hlt|Hge].
  - destruct (showSlide_in_range (currentSlide (cancel s) + 1) (cancel s))
      as (s' & -> & Hi & Hcat & _).
    + unfold Inv, len in *. lia.
    + apply Hc.
    + exists s'. split; [done|]. split; [done|]. by eapply same_catalog_trans.
  - by exists (cancel s).
Qed.

Lemma previousSlide_Inv s :
  Inv s -> exists s', previousSlide s = Normal s' /\ Inv s' /\ same_catalog s s'.
Proof.
  intros Hs. unfold previousSlide. fold (cancel s).
  destruct (cancel_Inv s Hs) as [Hc Hcc].
  destruct (Z.gtb_spec (currentSlide (cancel s)) 0) as [Hlt|Hge].
  - destruct (showSlide_in_range (currentSlide (cancel s) - 1) (cancel s))
      as (s' & -> & Hi & Hcat & _).
    + unfold Inv, len in *. lia.
    + apply Hc.
    + exists s'. split; [done|]. split; [done|]. by eapply same_catalog_trans.
  - by exists (cancel s).
Qed.

Lemma goToSlide_Inv index s :
  Inv s -> exists s', goToSlide index s = Normal s' /\ Inv s' /\ same_catalog s s'.
Proof.
  intros Hs. unfold goToSlide. fold (cancel s).
  destruct (cancel_Inv s Hs) as [Hc Hcc].
  destruct (decide (0 <= index < len (cancel s))) as [Hi|Hi].
  - destruct (showSlide_in_range index (cancel s) Hi)
      as (s' & -> & Hi' & Hcat & _); [apply Hc|].
    exists s'. split; [done|]. split; [done|]. by eapply same_catalog_trans.
  - rewrite showSlide_out_of_range by lia. by exists (cancel s).
Qed.

Lemma playVideo_Inv videoPath s :
  Inv s ->
  exists s',
    playVideo videoPath s = Normal s' /\ Inv s' /\ same_catalog s s'
    /\ currentSlide s' = currentSlide s
    /\ loop (videoElement s') = (currentSlide s =? 0)
    /\ active (videoElement s') = true
    /\ onloadeddata (videoElement s') = true
    /\ onerror (videoElement s') = true
    /\ imageElements s' = <[Z.to_nat (currentSlide s) := false]> (imageElements s).
Proof.
  intros (Hi & Hlen & Hp & Hn & Hpr & Hc). unfold playVideo.
  cbn [imageElements set_loadingEl currentSlide].
  destruct (at_index_in_range (imageElements s) (currentSlide s)) as [b ->];
    [unfold len in Hi; lia|].
  eexists. split; [reflexivity|].
  unfold Inv, same_catalog, len in *. simpl. rewrite length_insert.
  repeat split; try done; lia.
Qed.

Lemma onSlideClick_Inv s :
  Inv s -> exists s', onSlideClick s = Normal s' /\ Inv s' /\ same_catalog s s'.
Proof.
  intros Hs. unfold onSlideClick.
  destruct (isVideoPlaying s).
  - eexists. split; [reflexivity|]. unfold toggleVideo.
    by destruct (paused (videoElement s)).
  - destruct (videos s !! toString (currentSlide s + 1)) as [[|c p]|].
    + by apply nextSlide_Inv.
    + destruct (playVideo_Inv (c :: p) s Hs) as (s' & -> & ? & ? & _). eauto.
    + by apply nextSlide_Inv.
Qed.

Lemma onVideoEnded_Inv s :
  Inv s -> exists s', onVideoEnded s = Normal s' /\ Inv s' /\ same_catalog s s'.
Proof.
  intros Hs. unfold onVideoEnded.
  destruct (showSlide_in_range (currentSlide s) (set_isVideoPlaying false s))
    as (s' & Hs' & ? & ? & _); [apply Hs..|].
  cbn [set_isVideoPlaying currentSlide]. eauto.
Qed.

Lemma error_Inv s :
  Inv s -> exists s', error s = Normal s' /\ Inv s' /\ same_catalog s s'.
Proof.
  intros Hs. unfold error. destruct (onerror (videoElement s)).
  - destruct (showSlide_in_range (currentSlide s) (set_loadingEl false s))
      as (s' & Hs' & ? & ? & _); [apply Hs..|].
    cbn [set_loadingEl currentSlide]. eauto.
  - by exists s.
Qed.

Lemma dispatch_Inv e s :
  Inv s -> exists s', dispatch e s = Normal s' /\ Inv s' /\ same_catalog s s'.
Proof.
  intros Hs. destruct e as [| |index| | |k| | |]; cbn [dispatch].
  - by apply nextSlide_Inv.
  - by apply previousSlide_Inv.
  - by apply goToSlide_Inv.
  - by apply onSlideClick_Inv.
  - eexists. split; [reflexivity|]. unfold toggleVideo.
    by destruct (paused (videoElement s)).
  - destruct k; cbn [keydown];
      try (by apply nextSlide_Inv); try (by apply previousSlide_Inv);
      try (by apply goToSlide_Inv); try (by apply onSlideClick_Inv);
      try (by exists s).
    + by eexists.
    + destruct (showThumbnails s); by eexists.
  - by apply onVideoEnded_Inv.
  - unfold loadeddata. destruct (onloadeddata (videoElement s)); by eexists.
  - by apply error_Inv.
Qed.

Lemma run_Inv es s :
  Inv s -> exists s', run es s = Normal s' /\ Inv s' /\ same_catalog s s'.
Proof.
  revert s. induction es as [|e es IH]; intros s Hs; cbn [run].
  - by exists s.
  - destruct (dispatch_Inv e s Hs) as (s1 & -> & Hs1 & Hcat1).
    destruct (IH s1 Hs1) as (s' & -> & Hs' & Hcat').
    exists s'. split; [done|]. split; [done|]. by eapply same_catalog_trans.
Qed.

Lemma new_Inv slidesData videosData :
  slidesData <> [] ->
  exists s0,
    new slidesData videosData = Normal s0 /\ Inv s0
    /\ slides s0 = slidesData /\ videos s0 = videosData
    /\ ShowingImage 0 s0.
Proof.
  intros Hne. unfold new.
  match goal with |- context [showSlide 0 ?s] =>
    destruct (showSlide_in_range 0 s) as (s0 & -> & Hi & [Hsl Hv] & Hshow & _)
  end.
  - unfold len. simpl. destruct slidesData; [done|]. simpl. lia.
  - simpl. by rewrite length_fmap.
  - by exists s0.
Qed.

End PlayerFacts.

(** ** The properties of the specification *)

Section CatalogProperties.
Context `{DigitTable}.

Lemma scan_slides_sorted directory ks :
  StronglySorted ascending (numbered_slide <$> ks) ->
  matching_images directory ≡ₚ image_name <$> ks ->
  Scan.slides (Scan.scan_slides directory) = numbered_slide <$> ks.
Proof.
  intros Hks Hp. cbn [Scan.scan_slides Scan.slides].
  rewrite collect_slides_omap. cbn [app].
  apply omap_slide_of_perm in Hp.
  rewrite (sort_by_num_order_free _ _ Hp).
  - by apply sort_by_num_ascending.
  - rewrite Hp. by apply ascending_NoDup.
Qed.

(** C3. When the image files of a directory are exactly [1.png] to [n.png],
    in whatever order the directory yields them and among whatever other
    entries, the slides of the catalog are those [n] images in the order of
    their numbers: the sequence has length [n], [total] is [n], and the keys
    ascend strictly.  The order is numeric: [2.png] comes before [10.png]. *)
Theorem scan_slides_numbered (n : nat) (directory : list DirEntry) :
  matching_images directory ≡ₚ image_name <$> numbered n ->
  Scan.slides (Scan.scan_slides directory) = numbered_slide <$> numbered n
  /\ length (Scan.slides (Scan.scan_slides directory)) = n
  /\ Scan.total (Scan.scan_slides directory) = n
  /\ StronglySorted ascending (Scan.slides (Scan.scan_slides directory))
  /\ (forall d,
        matching_images d ≡ₚ [image_name 10; image_name 2] ->
        Scan.slides (Scan.scan_slides d) = [numbered_slide 2; numbered_slide 10]).
Proof.
  intros Hp.
  assert (Scan.slides (Scan.scan_slides directory) = numbered_slide <$> numbered n)
    as Hs by (apply scan_slides_sorted; [apply numbered_ascending|done]).
  assert (length (numbered_slide <$> numbered n) = n) as Hlen.
  { unfold numbered. by rewrite !length_fmap, length_seq. }
  split; [done|]. split; [by rewrite Hs|].
  split; [cbn [Scan.scan_slides Scan.total]; by rewrite <- Hlen, <- Hs|].
  split; [rewrite Hs; apply numbered_ascending|].
  intros d Hd. apply (scan_slides_sorted d [2; 10]%N).
  - by repeat constructor.
  - rewrite Hd. apply Permutation_swap.
Qed.

(** C8. On a directory in which no file name matches the image pattern
    [scan_slides] returns a catalog with no slide and [total] 0, and [main]
    then reports the failure and returns 1 without calling [generate_html]:
    nothing is written. *)
Theorem no_image_no_document (entries : list DirEntry) (d o t : str) :
  Forall (fun f => png_pattern (name f) = None) entries ->
  let args := {| Cli.directory := d; Cli.node := Cli.Listing entries;
                 Cli.output := o; Cli.title := t |} in
  Scan.slides (Scan.scan_slides entries) = []
  /\ Scan.total (Scan.scan_slides entries) = 0%nat
  /\ Cli.main args
     = (Cli.Return 1, [Cli.Print (Cli.Scanning d); Cli.Print Cli.NoSlides])
  /\ forallb (fun e => negb (Cli.writes_file e)) (snd (Cli.main args)) = true.
Proof.
  intros Hno args.
  assert (omap slide_of entries = []) as Hnil.
  { induction Hno as [|f rest Hf Hrest IH]; [done|].
    cbn [omap list_omap]. unfold slide_of at 1. rewrite Hf.
    by destruct (is_file f). }
  assert (Scan.slides (Scan.scan_slides entries) = []) as Hs.
  { cbn [Scan.scan_slides Scan.slides]. by rewrite collect_slides_omap, Hnil. }
  assert (Cli.main args
          = (Cli.Return 1, [Cli.Print (Cli.Scanning d); Cli.Print Cli.NoSlides]))
    as Hmain.
  { unfold Cli.main, args. cbn [Cli.node Cli.directory]. by rewrite Hs. }
  split; [done|]. split.
  - cbn [Scan.scan_slides Scan.total]. by rewrite collect_slides_omap, Hnil.
  - split; [done|]. by rewrite Hmain.
Qed.

Lemma slide_of_two : slide_of (file "2.png") = Some (slide 2 "2.png").
Proof. by apply (slide_of_image_name (file "2.png") 2). Qed.

Lemma png_pattern_zero_two : png_pattern (lit "02.png") = Some (lit "02").
Proof.
  apply (digits_then_intro (lit ".png") (lit "02") []); try done.
  - repeat constructor; by rewrite is_digit_ascii.
  - change (is_digit 46 = false). by rewrite is_digit_ascii.
Qed.

Lemma py_int_zero_two : py_int (lit "02") = 2%N.
Proof.
  unfold py_int. cbn [lit list_ascii_of_string List.map fold_left].
  change (N_of_ascii "0") with 48%N. change (N_of_ascii "2") with 50%N.
  by rewrite !digit_value_ascii.
Qed.

Lemma slide_of_zero_two : slide_of (file "02.png") = Some (slide 2 "02.png").
Proof.
  unfold slide_of. cbn [is_file file kind name].
  by rewrite png_pattern_zero_two, py_int_zero_two.
Qed.

(** C10. [2.png] and [02.png] both match the image pattern with the same
    number 2; a directory holding both gives two slides with that key, in
    the order the directory yielded them.  In general the sort drops and
    merges nothing, and the slides of one key keep their iteration order. *)
Theorem equal_keys_keep_iteration_order :
  (png_pattern (lit "2.png") = Some (lit "2")
   /\ png_pattern (lit "02.png") = Some (lit "02")
   /\ py_int (lit "2") = 2%N /\ py_int (lit "02") = 2%N)
  /\ Scan.slides (Scan.scan_slides [file "2.png"; file "02.png"])
     = [slide 2 "2.png"; slide 2 "02.png"]
  /\ Scan.slides (Scan.scan_slides [file "02.png"; file "2.png"])
     = [slide 2 "02.png"; slide 2 "2.png"]
  /\ (forall directory,
        Scan.slides (Scan.scan_slides directory)
        ≡ₚ Scan.collect_slides directory [])
  /\ (forall directory k,
        filter (fun s => Scan.num s = k) (Scan.slides (Scan.scan_slides directory))
        = filter (fun s => Scan.num s = k) (Scan.collect_slides directory [])).
Proof.
  split; [|split; [|split; [|split]]].
  - split; [apply (png_pattern_image_name 2)|].
    split; [apply png_pattern_zero_two|].
    split; [apply (to_decimal_value 2)|apply py_int_zero_two].
  - cbn [Scan.scan_slides Scan.slides]. rewrite collect_slides_omap.
    cbn [omap list_omap app]. by rewrite slide_of_two, slide_of_zero_two.
  - cbn [Scan.scan_slides Scan.slides]. rewrite collect_slides_omap.
    cbn [omap list_omap app]. by rewrite slide_of_two, slide_of_zero_two.
  - intros directory. apply sort_by_num_perm.
  - intros directory k. apply filter_sort_by_num.
Qed.

(** C5, as the code has it.  When the cover video exists, the video map
    binds key ["1"]: to the cover video, unless the directory also holds a
    regular file [1.mp4], which the second loop then puts in its place.  A
    video started while [currentSlide] is 0 has its [loop] flag set, and one
    started at any other index has it cleared. *)
Theorem cover_video_binding (directory : list DirEntry) :
  Scan.path_exists directory cover_name = true ->
  Scan.videos (Scan.scan_slides directory) !! lit "1"
  = Some (if has_first_video directory then lit "1.mp4" else cover_name)
  /\ (forall videoPath s s',
        Player.playVideo videoPath s = Player.Normal s' ->
        Player.loop (Player.videoElement s')
        = (Player.currentSlide s =? 0)%Z
        /\ Player.src (Player.videoElement s') = Some videoPath
        /\ Player.currentSlide s' = Player.currentSlide s).
Proof.
  intros Hc. split.
  - cbn [Scan.scan_slides Scan.videos]. rewrite collect_videos_first, Hc.
    rewrite lookup_insert_eq. by destruct (has_first_video directory).
  - intros videoPath s s'. unfold Player.playVideo.
    destruct (Player.at_index _ _); [|done]. by intros [= <-].
Qed.

End CatalogProperties.

Section PlayerProperties.
Import Player PlayerSpec.
Local Open Scope Z_scope.

Lemma ShowingImage_length i s :
  ShowingImage i s -> length (imageElements s) = length (slides s).
Proof. intros (_ & _ & _ & _ & ->). apply length_imap. Qed.

Lemma hidden_image {A} (sl : list A) (i : Z) :
  <[Z.to_nat i := false]> (imap (fun j _ => Z.of_nat j =? i) sl)
  = (fun _ => false) <$> sl.
Proof.
  apply list_eq. intros j. rewrite list_lookup_fmap.
  destruct (decide (j = Z.to_nat i)) as [->|Hj].
  - destruct (decide (Z.to_nat i < length sl)%nat) as [Hlt|Hge].
    + rewrite list_lookup_insert_eq by (by rewrite length_imap).
      by destruct (lookup_lt_is_Some_2 sl _ Hlt) as [x ->].
    + rewrite list_insert_ge by (rewrite length_imap; lia).
      rewrite list_lookup_imap. by rewrite lookup_ge_None_2 by lia.
  - rewrite list_lookup_insert_ne by done. rewrite list_lookup_imap.
    destruct (sl !! j) as [x|] eqn:E; [|done].
    simpl. f_equal. apply Z.eqb_neq.
    intros <-. apply Hj. by rewrite Nat2Z.id.
Qed.

(** What [playVideo] returns when the current slide has an image. *)
Lemma playVideo_in_range videoPath s :
  0 <= currentSlide s < len s ->
  length (imageElements s) = length (slides s) ->
  playVideo videoPath s
  = Normal
      (set_videoElement
         {| active := true; src := Some videoPath;
            loop := currentSlide s =? 0;
            paused := paused (videoElement s);
            onloadeddata := true; onerror := true |}
         (set_imageElements
            (<[Z.to_nat (currentSlide s) := false]> (imageElements s))
            (set_loadingEl true s))).
Proof.
  intros Hi Hlen. unfold playVideo.
  cbn [imageElements set_loadingEl currentSlide].
  destruct (at_index_in_range (imageElements s) (currentSlide s)) as [b ->];
    [unfold len in Hi; lia|done].
Qed.

(** C1. In [ShowingImage i] with no entry for the key of slide [i + 1], the
    primary action, by a click or the space bar, does what next-slide does:
    both return the same state.
    When [i + 1] is an index that state shows image [i + 1], and at the last
    index it is the state they started from. *)
Theorem primary_action_without_binding (s : State) (i : Z) :
  ShowingImage i s ->
  videos s !! toString (i + 1) = None ->
  onSlideClick s = nextSlide s
  /\ dispatch PrimaryAction s = dispatch Next s
  /\ keydown Space s = keydown ArrowRight s
  /\ (i + 1 < len s ->
      exists s', nextSlide s = Normal s'
                 /\ currentSlide s' = i + 1 /\ ShowingImage (i + 1) s')
  /\ (i = len s - 1 -> nextSlide s = Normal s).
Proof.
  intros Hshow Hnone.
  pose proof (ShowingImage_length i s Hshow) as Hlen.
  destruct Hshow as (Hi & Hcur & Hplay & _).
  assert (onSlideClick s = nextSlide s) as Hsame.
  { unfold onSlideClick. by rewrite Hplay, Hcur, Hnone. }
  do 3 (split; [done|]). split.
  - intros Hnext. unfold nextSlide. rewrite Hplay, Hcur.
    destruct (Z.ltb_spec i (Z.of_nat (length (slides s)) - 1));
      [|unfold len in Hnext; lia].
    destruct (showSlide_in_range (i + 1) s) as (s' & -> & _ & _ & Hs' & _);
      [unfold len in *; lia|done|].
    exists s'. split; [done|]. split; [apply Hs'|done].
  - intros Hlast. unfold nextSlide. rewrite Hplay, Hcur.
    destruct (Z.ltb_spec i (Z.of_nat (length (slides s)) - 1));
      [unfold len in Hlast; lia|done].
Qed.

(** C2. In [ShowingImage i] of a player whose video map is the one of a
    scanned catalog and has an entry for the key of slide [i + 1], the
    primary action leaves [currentSlide] at [i] and shows the video in place
    of the image, [PlayingVideo i]; when the video ends, at once or after it
    was loaded and played, the player is back in [ShowingImage i]. *)
Theorem primary_action_with_binding `{DigitTable}
    (directory : list DirEntry) (s : State) (i : Z) :
  videos s = Scan.videos (Scan.scan_slides directory) ->
  ShowingImage i s ->
  is_Some (videos s !! toString (i + 1)) ->
  exists s1,
    onSlideClick s = Normal s1
    /\ PlayingVideo i s1 /\ currentSlide s1 = i
    /\ (exists s2, onVideoEnded s1 = Normal s2 /\ ShowingImage i s2)
    /\ (exists s1' s2,
          loadeddata s1 = Normal s1'
          /\ isVideoPlaying s1' = true /\ PlayingVideo i s1'
          /\ onVideoEnded s1' = Normal s2 /\ ShowingImage i s2).
Proof.
  intros Hvideos Hshow [v Hv].
  pose proof (ShowingImage_length i s Hshow) as Hlen.
  destruct Hshow as (Hi & Hcur & Hplay & Hvid & Himg).
  assert (v <> []) as Hne.
  { rewrite Hvideos in Hv. by eapply scan_slides_videos_named. }
  destruct v as [|c p]; [done|]. subst i.
  eexists. split.
  { unfold onSlideClick. rewrite Hplay, Hv. by apply playVideo_in_range. }
  assert (<[Z.to_nat (currentSlide s) := false]> (imageElements s)
          = (fun _ => false) <$> slides s) as Hhidden.
  { rewrite Himg. apply hidden_image. }
  split; [|split; [done|split]].
  - unfold PlayingVideo. simpl. by rewrite Hhidden.
  - match goal with |- context [onVideoEnded ?s1] =>
      destruct (showSlide_in_range (currentSlide s) (set_isVideoPlaying false s1))
        as (s2 & Hs2 & _ & _ & Hshow2 & _)
    end.
    + done.
    + simpl. by rewrite length_insert.
    + exists s2. split; [|done]. exact Hs2.
  - eexists.
    match goal with |- context [loadeddata ?s1] =>
      destruct (showSlide_in_range (currentSlide s)
                  (set_isVideoPlaying false
                     (set_isVideoPlaying true
                        (set_videoElement (play (videoElement s1))
                           (set_loadingEl false s1)))))
        as (s2 & Hs2 & _ & _ & Hshow2 & _)
    end.
    + done.
    + simpl. by rewrite length_insert.
    + exists s2. split; [reflexivity|]. split; [done|]. split.
      * unfold PlayingVideo. simpl. by rewrite Hhidden.
      * split; [|done]. exact Hs2.
Qed.

(** C7. In [PlayingVideo i], with the video loading or playing, the error
    event of the video element ends normally in [ShowingImage i]: the index
    is still [i] and the loading indicator is cleared. *)
Theorem load_error_reverts_to_image (s : State) (i : Z) :
  PlayingVideo i s ->
  exists s',
    error s = Normal s'
    /\ ShowingImage i s' /\ currentSlide s' = i /\ loadingEl s' = false.
Proof.
  intros (Hi & Hcur & _ & _ & Herr & Himg).
  unfold error. rewrite Herr.
  destruct (showSlide_in_range i (set_loadingEl false s))
    as (s' & Hs' & _ & _ & Hshow & _ & Hload).
  - done.
  - simpl. by rewrite Himg, length_fmap.
  - exists s'. cbn [set_loadingEl currentSlide]. rewrite Hcur.
    split; [done|]. split; [done|]. split; [apply Hshow|done].
Qed.

(** C6, as the code has it.  A jump to an index outside the slides raises
    nothing and leaves the index, the thumbnail flag and the images as they
    were.  With no video playing the whole state is unchanged; with a video
    playing the jump first pauses it and clears [isVideoPlaying], as every
    navigation request does, and changes nothing else. *)
Theorem jump_out_of_range (s : State) (index : Z) :
  index < 0 \/ len s <= index ->
  exists s',
    goToSlide index s = Normal s'
    /\ currentSlide s' = currentSlide s
    /\ showThumbnails s' = showThumbnails s
    /\ imageElements s' = imageElements s
    /\ active (videoElement s') = active (videoElement s)
    /\ isVideoPlaying s' = false
    /\ (isVideoPlaying s = false -> s' = s)
    /\ (isVideoPlaying s = true ->
        s' = set_isVideoPlaying false (set_videoElement (pause (videoElement s)) s)).
Proof.
  intros Hi. unfold goToSlide.
  destruct (isVideoPlaying s) eqn:Hplay.
  - rewrite showSlide_out_of_range by done. eexists. by repeat split.
  - rewrite showSlide_out_of_range by done. eexists. by repeat split.
Qed.

Lemma reachable_Inv slidesData videosData es :
  slidesData <> [] ->
  exists s0 s,
    new slidesData videosData = Normal s0
    /\ currentSlide s0 = 0
    /\ run es s0 = Normal s
    /\ slides s = slidesData
    /\ Inv s.
Proof.
  intros Hne.
  destruct (new_Inv slidesData videosData Hne) as (s0 & Hnew & Hinv & Hsl & _ & Hshow).
  destruct (run_Inv es s0 Hinv) as (s & Hrun & Hs & Hsl' & _).
  exists s0, s. split; [done|]. split; [apply Hshow|]. split; [done|].
  split; [congruence|done].
Qed.

(** C4. The player built on a catalog with at least one slide starts at
    index 0, and after any sequence of events (next, previous, jump to any
    index, primary action, keys, the events of the video element), none of
    which raises, [currentSlide] is an index of [slides].  There next-slide
    at the last index and previous-slide at index 0 keep the index, the
    previous button is disabled exactly at index 0 and the next button
    exactly at the last index. *)
Theorem navigation_keeps_index_valid
    (slidesData : list str) (videosData : gmap str str) (es : list event) :
  slidesData <> [] ->
  exists s0 s,
    new slidesData videosData = Normal s0
    /\ currentSlide s0 = 0
    /\ run es s0 = Normal s
    /\ slides s = slidesData
    /\ 0 <= currentSlide s < len s
    /\ (currentSlide s = len s - 1 ->
        exists s', nextSlide s = Normal s' /\ currentSlide s' = currentSlide s)
    /\ (currentSlide s = 0 ->
        exists s', previousSlide s = Normal s' /\ currentSlide s' = currentSlide s)
    /\ (prevBtn s = true <-> currentSlide s = 0)
    /\ (nextBtn s = true <-> currentSlide s = len s - 1).
Proof.
  intros Hne.
  destruct (reachable_Inv slidesData videosData es Hne)
    as (s0 & s & Hnew & H0 & Hrun & Hsl & Hinv).
  exists s0, s. do 4 (split; [done|]).
  destruct Hinv as (Hi & _ & Hprev & Hnext & _).
  pose proof (cancel_fields s) as (Hcc & Hcs & _).
  split; [done|]. split; [|split; [|split]].
  - intros Hlast. exists (cancel s). split; [|done].
    unfold nextSlide. fold (cancel s). rewrite Hcc, Hcs.
    destruct (Z.ltb_spec (currentSlide s) (Z.of_nat (length (slides s)) - 1));
      [unfold len in Hlast; lia|done].
  - intros Hfirst. exists (cancel s). split; [|done].
    unfold previousSlide. fold (cancel s). rewrite Hcc.
    destruct (Z.gtb_spec (currentSlide s) 0); [lia|done].
  - rewrite Hprev. apply Z.eqb_eq.
  - rewrite Hnext. apply Z.eqb_eq.
Qed.

(** C9. After any sequence of events on a player with at least one slide
    the width of the progress bar is [(currentSlide + 1) / slides.length *
    100] per cent, computed on JavaScript numbers.  With three slides at
    index 1 that number is 66.66666666666666, within 0.05 of 66.7. *)
Theorem progress_is_percentage
    (slidesData : list str) (videosData : gmap str str) (es : list event) :
  slidesData <> [] ->
  (exists s0 s,
     new slidesData videosData = Normal s0
     /\ run es s0 = Normal s
     /\ progressEl s
        = Some (percent (currentSlide s) (Z.of_nat (length slidesData))))
  /\ percent 1 3 = 0x1.0aaaaaaaaaaaap+6%float
  /\ (exists q, exact (percent 1 3) = Some q
                /\ Qle_bool (Qabs (q - (667 # 10))) (5 # 100) = true).
Proof.
  intros Hne. split; [|split].
  - destruct (reachable_Inv slidesData videosData es Hne)
      as (s0 & s & Hnew & _ & Hrun & Hsl & Hinv).
    exists s0, s. do 2 (split; [done|]).
    destruct Hinv as (_ & _ & _ & _ & Hp & _).
    rewrite Hp. unfold len. by rewrite Hsl.
  - vm_compute. reflexivity.
  - eexists. split; vm_compute; reflexivity.
Qed.

End PlayerProperties.

(** ** The properties at the sample inputs *)

Import Player PlayerSpec.

Lemma scan_slides_numbered_witness :
  matching_images talk_directory ≡ₚ image_name <$> numbered 3
  /\ Scan.slides (Scan.scan_slides talk_directory) = numbered_slide <$> numbered 3.
Proof.
  assert (matching_images talk_directory ≡ₚ image_name <$> numbered 3) as Hp.
  { exact (Permutation_cons_append [image_name 1; image_name 2] (image_name 3)). }
  split; [exact Hp|].
  exact (proj1 (scan_slides_numbered 3 talk_directory Hp)).
Defined.

Lemma no_image_no_document_witness :
  Forall (fun f => png_pattern (name f) = None) no_images
  /\ Cli.main {| Cli.directory := lit "/talk"; Cli.node := Cli.Listing no_images;
                 Cli.output := lit "slideshow.html"; Cli.title := lit "Talk" |}
     = (Cli.Return 1, [Cli.Print (Cli.Scanning (lit "/talk")); Cli.Print Cli.NoSlides]).
Proof.
  assert (Forall (fun f => png_pattern (name f) = None) no_images) as Hno.
  { repeat constructor. }
  split; [exact Hno|].
  exact (proj1 (proj2 (proj2
    (no_image_no_document no_images (lit "/talk") (lit "slideshow.html")
       (lit "Talk") Hno)))).
Defined.

Lemma cover_video_binding_witness :
  Scan.path_exists talk_directory cover_name = true
  /\ Scan.videos (Scan.scan_slides talk_directory) !! lit "1" = Some cover_name.
Proof.
  assert (Scan.path_exists talk_directory cover_name = true) as Hc
    by (vm_compute; reflexivity).
  split; [exact Hc|].
  exact (proj1 (cover_video_binding talk_directory Hc)).
Defined.

(** With the cover video and [1.mp4] both in the directory, key ["1"] is
    bound to [1.mp4] and not to the cover video. *)
Lemma cover_video_overwritten :
  Scan.path_exists two_first_videos cover_name = true
  /\ Scan.videos (Scan.scan_slides two_first_videos) !! lit "1" = Some (lit "1.mp4")
  /\ Scan.videos (Scan.scan_slides two_first_videos) !! lit "1" <> Some cover_name.
Proof.
  split; [vm_compute; reflexivity|].
  assert (Scan.videos (Scan.scan_slides two_first_videos) !! lit "1"
          = Some (lit "1.mp4")) as E by (vm_compute; reflexivity).
  split; [exact E|]. rewrite E. intros Hc. vm_compute in Hc. discriminate.
Qed.

Lemma primary_action_without_binding_witness :
  ShowingImage 0 showing_first
  /\ videos showing_first !! toString (0 + 1) = None
  /\ onSlideClick showing_first = nextSlide showing_first.
Proof.
  assert (ShowingImage 0 showing_first) as Hs.
  { unfold ShowingImage. repeat split; by vm_compute. }
  assert (videos showing_first !! toString (0 + 1) = None) as Hn
    by (vm_compute; reflexivity).
  split; [exact Hs|]. split; [exact Hn|].
  exact (proj1 (primary_action_without_binding showing_first 0 Hs Hn)).
Defined.

Lemma primary_action_with_binding_witness :
  videos talk_player = Scan.videos (Scan.scan_slides talk_directory)
  /\ ShowingImage 0 talk_player
  /\ is_Some (videos talk_player !! toString (0 + 1))
  /\ exists s1, onSlideClick talk_player = Normal s1 /\ PlayingVideo 0 s1.
Proof.
  assert (videos talk_player = Scan.videos (Scan.scan_slides talk_directory)) as Hv
    by (vm_compute; reflexivity).
  assert (ShowingImage 0 talk_player) as Hs.
  { unfold ShowingImage. repeat split; by vm_compute. }
  assert (is_Some (videos talk_player !! toString (0 + 1))) as Hb.
  { exists cover_name. vm_compute. reflexivity. }
  split; [exact Hv|]. split; [exact Hs|]. split; [exact Hb|].
  destruct (primary_action_with_binding talk_directory talk_player 0 Hv Hs Hb)
    as (s1 & Hclick & Hplay & _).
  exists s1. split; [exact Hclick|exact Hplay].
Defined.

Lemma load_error_reverts_to_image_witness :
  PlayingVideo 0 loading_first
  /\ exists s', error loading_first = Normal s'
                /\ ShowingImage 0 s' /\ currentSlide s' = 0%Z /\ loadingEl s' = false.
Proof.
  assert (PlayingVideo 0 loading_first) as Hp.
  { unfold PlayingVideo. repeat split; by vm_compute. }
  split; [exact Hp|].
  exact (load_error_reverts_to_image loading_first 0 Hp).
Defined.

Lemma jump_out_of_range_witness :
  (7 < 0 \/ len playing_first <= 7)%Z
  /\ exists s', goToSlide 7 playing_first = Normal s'
                /\ currentSlide s' = currentSlide playing_first.
Proof.
  assert (7 < 0 \/ len playing_first <= 7)%Z as Hi.
  { right. by vm_compute. }
  split; [exact Hi|].
  destruct (jump_out_of_range playing_first 7 Hi) as (s' & Hgo & Hcur & _).
  exists s'. split; [exact Hgo|exact Hcur].
Defined.

(** While a video is playing, the jump to index 7 of three slides changes
    the state: it pauses the video and clears [isVideoPlaying]. *)
Lemma jump_out_of_range_stops_video :
  (7 < 0 \/ len playing_first <= 7)%Z
  /\ isVideoPlaying playing_first = true
  /\ paused (videoElement playing_first) = false
  /\ goToSlide 7 playing_first <> Normal playing_first
  /\ isVideoPlaying (state_of (goToSlide 7 playing_first)) = false
  /\ paused (videoElement (state_of (goToSlide 7 playing_first))) = true.
Proof.
  split; [right; by vm_compute|].
  do 2 (split; [vm_compute; reflexivity|]).
  split; [|split; vm_compute; reflexivity].
  intros E. apply (f_equal (fun c => isVideoPlaying (state_of c))) in E.
  vm_compute in E. discriminate.
Qed.

Lemma navigation_keeps_index_valid_witness :
  three_slides <> []
  /\ exists s0 s,
       new three_slides cover_only = Normal s0
       /\ run some_events s0 = Normal s
       /\ (0 <= currentSlide s < len s)%Z.
Proof.
  assert (three_slides <> []) as Hne by discriminate.
  split; [exact Hne|].
  destruct (navigation_keeps_index_valid three_slides cover_only some_events Hne)
    as (s0 & s & Hnew & _ & Hrun & _ & Hi & _).
  exists s0, s. split; [exact Hnew|]. split; [exact Hrun|exact Hi].
Defined.

Lemma progress_is_percentage_witness :
  three_slides <> []
  /\ exists s0 s,
       new three_slides cover_only = Normal s0
       /\ run some_events s0 = Normal s
       /\ progressEl s = Some (percent (currentSlide s) 3).
Proof.
  assert (three_slides <> []) as Hne by discriminate.
  split; [exact Hne|].
  exact (proj1 (progress_is_percentage three_slides cover_only some_events Hne)).
Defined.

(** ** Further properties of the catalog builder *)

Section CatalogFacts.
Context `{DigitTable}.

Lemma insert_by_num_sorted x l :
  StronglySorted non_descending l ->
  StronglySorted non_descending (Scan.insert_by_num x l).
Proof.
  induction 1 as [|y l Hl IH Hy]; simpl; [by repeat constructor|].
  destruct (N.leb_spec (Scan.num x) (Scan.num y)) as [Hle|Hgt].
  - constructor; [by constructor|]. constructor; [done|].
    eapply Forall_impl; [exact Hy|].
    unfold non_descending in *. intros z Hz. lia.
  - constructor; [done|]. rewrite insert_by_num_perm.
    constructor; [|done]. unfold non_descending. lia.
Qed.

Lemma slide_of_inv f s :
  slide_of f = Some s <->
  is_file f = true
  /\ exists g, png_pattern (name f) = Some g
               /\ s = {| Scan.num := py_int g; Scan.filename := name f;
                         Scan.path := name f |}.
Proof.
  unfold slide_of. split.
  - destruct (is_file f); [|done].
    destruct (png_pattern (name f)) as [g|]; [|done].
    intros [= <-]. eauto.
  - intros (-> & g & -> & ->). done.
Qed.

Lemma matching_images_length directory :
  length (matching_images directory) = length (omap slide_of directory).
Proof.
  induction directory as [|f rest IH]; [done|].
  cbn [matching_images omap list_omap]. fold (matching_images rest).
  destruct (slide_of f); simpl; by rewrite ?IH.
Qed.

(** ** The last dot and the suffix test *)

Lemma rfind_dot_none y i : 46 ∉ y -> rfind_dot y i = None.
Proof.
  revert i. induction y as [|c y IH]; intros i Hy; [done|].
  apply not_elem_of_cons in Hy as [Hc Hy]. cbn [rfind_dot].
  rewrite IH by done. destruct (N.eqb_spec c 46); congruence.
Qed.

Lemma rfind_dot_app x y i :
  46 ∉ y -> rfind_dot (x ++ 46 :: y) i = Some (i + length x)%nat.
Proof.
  intros Hy. revert i. induction x as [|c x IH]; intros i.
  - cbn [app rfind_dot length]. rewrite rfind_dot_none by done.
    simpl. f_equal. lia.
  - cbn [app rfind_dot length]. rewrite IH. f_equal. lia.
Qed.

Lemma suffix_mp4 x r :
  x <> [] -> at_end r = true -> suffix (x ++ lit ".mp4" ++ r) = lit ".mp4" ++ r.
Proof.
  intros Hx Hr. unfold suffix.
  set (y := [109; 112; 52] ++ r).
  change (lit ".mp4" ++ r) with (46 :: y).
  assert (46 ∉ y) as Hy.
  { subst y. apply at_end_inv in Hr as [-> | ->];
      intros Hin%list_elem_of_In; simpl in Hin; intuition discriminate. }
  assert (0 < length x)%nat as Hlx by (destruct x; [done|simpl; lia]).
  assert (0 < length y)%nat as Hly by (subst y; simpl; lia).
  rewrite rfind_dot_app by done. cbn [Nat.add].
  rewrite length_app. cbn [length].
  replace (0 <? length x)%nat with true by (symmetry; apply Nat.ltb_lt; lia).
  replace (length x <? length x + S (length y) - 1)%nat with true
    by (symmetry; apply Nat.ltb_lt; lia).
  cbn [andb]. apply drop_app_length.
Qed.

Lemma suffix_test_mp4 x r :
  x <> [] -> at_end r = true ->
  lower (suffix (x ++ lit ".mp4" ++ r)) = lit ".mp4" -> r = [].
Proof.
  intros Hx Hr. rewrite suffix_mp4 by done.
  apply at_end_inv in Hr as [-> | ->]; [done|].
  intros E. vm_compute in E. discriminate.
Qed.

(** ** The two video patterns *)

Lemma mp4_pattern_inv n g :
  mp4_pattern n = Some g ->
  g <> [] /\ Forall (fun c => is_digit c = true) g
  /\ transition_pattern n = None
  /\ exists r, n = g ++ lit ".mp4" ++ r /\ at_end r = true.
Proof.
  intros Hm. apply digits_then_inv in Hm as (Hg & Hd & r & -> & Hr).
  split; [done|]. split; [done|]. split; [|eauto].
  unfold transition_pattern.
  rewrite (span_digits_app g (lit ".mp4" ++ r)); [|done|].
  - by destruct g.
  - change (is_digit 46 = false). by rewrite is_digit_ascii.
Qed.

Lemma transition_pattern_inv n a b :
  transition_pattern n = Some (a, b) ->
  a <> [] /\ b <> []
  /\ Forall (fun c => is_digit c = true) a
  /\ Forall (fun c => is_digit c = true) b
  /\ mp4_pattern n = None
  /\ exists r, n = a ++ [45] ++ b ++ lit ".mp4" ++ r /\ at_end r = true.
Proof.
  unfold transition_pattern, mp4_pattern, digits_then.
  destruct (span_digits n) as [d1 r0] eqn:Es.
  destruct d1 as [|c d1]; [done|].
  destruct r0 as [|c0 r0]; [done|].
  destruct (decide (c0 = 45)) as [->|Hc0];
    [|intros Ht; exfalso; repeat case_match; congruence].
  destruct (span_digits r0) as [d2 r1] eqn:Es2.
  destruct d2 as [|c2 d2]; [done|].
  destruct (strip_prefix (lit ".mp4") r1) as [r|] eqn:Ep; [|done].
  destruct (at_end r) eqn:Er; [|done].
  intros [= <- <-].
  pose proof (span_digits_all _ _ _ Es). pose proof (span_digits_all _ _ _ Es2).
  apply span_digits_eq in Es, Es2. apply strip_prefix_inv in Ep. subst.
  repeat split; try done. by exists r.
Qed.

Lemma transition_pattern_intro a b :
  a <> [] -> b <> [] ->
  Forall (fun c => is_digit c = true) a ->
  Forall (fun c => is_digit c = true) b ->
  transition_pattern (a ++ [45] ++ b ++ lit ".mp4") = Some (a, b).
Proof.
  intros Ha Hb Hda Hdb. unfold transition_pattern.
  rewrite (span_digits_app a ([45] ++ b ++ lit ".mp4")); [|done|].
  - destruct a; [done|]. cbn [app].
    rewrite <- (app_nil_r (lit ".mp4")).
    rewrite digits_then_intro; try done.
    change (is_digit 46 = false). by rewrite is_digit_ascii.
  - change (is_digit 45 = false). by rewrite is_digit_ascii.
Qed.

(** An entry binds at most one key, to its own name, which is the key
    followed by [".mp4"]. *)
Lemma video_key_name f k :
  video_key f = Some k -> is_file f = true /\ name f = k ++ lit ".mp4".
Proof.
  unfold video_key. destruct (is_file f); [|done]. cbn [andb].
  case_bool_decide as Hs; [|done].
  destruct (transition_pattern (name f)) as [[a b]|] eqn:Et.
  - intros Hk.
    assert (k = a ++ [45] ++ b) as ->
      by (destruct (mp4_pattern (name f)); by injection Hk).
    split; [done|].
    apply transition_pattern_inv in Et as (Ha & _ & _ & _ & _ & r & Hn & Hr).
    rewrite Hn in Hs |- *.
    replace (a ++ [45] ++ b ++ lit ".mp4" ++ r)
      with ((a ++ [45] ++ b) ++ lit ".mp4" ++ r) in *
      by (by rewrite <- !app_assoc).
    apply suffix_test_mp4 in Hs; [|by destruct a|done].
    subst r. by rewrite app_nil_r.
  - destruct (mp4_pattern (name f)) as [g|] eqn:Em; [|done].
    intros [= <-]. split; [done|].
    apply mp4_pattern_inv in Em as (Hg & _ & _ & r & Hn & Hr).
    rewrite Hn in Hs. apply suffix_test_mp4 in Hs; [|done..].
    subst r. by rewrite Hn, app_nil_r.
Qed.

Lemma collect_videos_cons f rest m :
  Scan.collect_videos (f :: rest) m
  = Scan.collect_videos rest
      match video_key f with
      | Some k => <[k := name f]> m
      | None => m
      end.
Proof.
  cbn [Scan.collect_videos]. f_equal. unfold video_key.
  destruct (is_file f && bool_decide (lower (suffix (name f)) = lit ".mp4"));
    [|done].
  destruct (mp4_pattern (name f)) as [g|] eqn:Em.
  - apply mp4_pattern_inv in Em as (_ & _ & -> & _). done.
  - by destruct (transition_pattern (name f)) as [[a b]|].
Qed.

Lemma collect_videos_lookup entries m k :
  Scan.collect_videos entries m !! k
  = if binds_key entries k then Some (k ++ lit ".mp4") else m !! k.
Proof.
  revert m. induction entries as [|f rest IH]; intros m; [done|].
  rewrite collect_videos_cons, IH. unfold binds_key. cbn [existsb].
  fold (binds_key rest k).
  destruct (video_key f) as [k'|] eqn:Ek.
  - destruct (decide (k' = k)) as [->|Hk].
    + rewrite bool_decide_eq_true_2 by done. cbn [orb].
      apply video_key_name in Ek as [_ ->].
      rewrite lookup_insert_eq. by destruct (binds_key rest k).
    + rewrite bool_decide_eq_false_2 by congruence. cbn [orb].
      by rewrite lookup_insert_ne.
  - rewrite bool_decide_eq_false_2 by done. done.
Qed.

(** What the catalog holds under a key. *)
Lemma scan_slides_videos_lookup directory k :
  Scan.videos (Scan.scan_slides directory) !! k
  = if binds_key directory k then Some (k ++ lit ".mp4")
    else if Scan.path_exists directory cover_name && bool_decide (k = lit "1")
         then Some cover_name else None.
Proof.
  cbn [Scan.scan_slides Scan.videos]. rewrite collect_videos_lookup.
  destruct (binds_key directory k); [done|].
  destruct (Scan.path_exists directory cover_name); cbn [andb]; [|done].
  case_bool_decide as Hk.
  - subst k. by rewrite lookup_insert_eq.
  - by rewrite lookup_insert_ne.
Qed.

Lemma existsb_Permutation {A} (p : A -> bool) l l' :
  l ≡ₚ l' -> existsb p l = existsb p l'.
Proof.
  induction 1 as [|x l l' _ IH|x y l|l l' l'' _ IH1 _ IH2]; simpl.
  - done.
  - by rewrite IH.
  - by destruct (p x), (p y).
  - congruence.
Qed.

Lemma binds_key_intro directory f k :
  f ∈ directory -> video_key f = Some k -> binds_key directory k = true.
Proof.
  intros Hf Hk. unfold binds_key. apply existsb_exists.
  exists f. split; [by apply list_elem_of_In|]. by apply bool_decide_eq_true_2.
Qed.

Lemma binds_key_inv directory k :
  binds_key directory k = true ->
  exists f, f ∈ directory /\ video_key f = Some k.
Proof.
  unfold binds_key. intros (f & Hf & Hk)%existsb_exists.
  exists f. split; [by apply list_elem_of_In|]. by apply bool_decide_eq_true in Hk.
Qed.

End CatalogFacts.

Section CatalogExtras.
Context `{DigitTable}.

Lemma scan_slides_omap directory :
  Scan.slides (Scan.scan_slides directory) ≡ₚ omap slide_of directory.
Proof.
  cbn [Scan.scan_slides Scan.slides].
  by rewrite sort_by_num_perm, collect_slides_omap.
Qed.

Lemma scan_slides_count directory :
  length (Scan.slides (Scan.scan_slides directory))
  = length (matching_images directory)
  /\ Scan.total (Scan.scan_slides directory)
     = length (matching_images directory).
Proof.
  assert (length (Scan.slides (Scan.scan_slides directory))
          = length (matching_images directory)) as Hlen
    by (by rewrite scan_slides_omap, matching_images_length).
  split; [done|]. exact Hlen.
Qed.

(** X1. Whatever the directory holds and in whatever order it is read, the
    slides of the catalog never descend in their numbers. *)
Theorem scan_slides_never_descend (directory : list DirEntry) :
  StronglySorted non_descending (Scan.slides (Scan.scan_slides directory)).
Proof.
  cbn [Scan.scan_slides Scan.slides].
  induction (Scan.collect_slides directory []) as [|x l IH]; simpl.
  - constructor.
  - by apply insert_by_num_sorted.
Qed.

(** X2. The slides are the regular files whose name matches the image
    pattern, each with the number of its digit run and its name as file name
    and path: a directory or a dangling link with such a name gives no slide,
    every such file gives one, and [total] counts them. *)
Theorem scan_slides_members (directory : list DirEntry) :
  (forall s,
     s ∈ Scan.slides (Scan.scan_slides directory) <->
     exists f g,
       f ∈ directory /\ is_file f = true /\ png_pattern (name f) = Some g
       /\ s = {| Scan.num := py_int g; Scan.filename := name f;
                 Scan.path := name f |})
  /\ length (Scan.slides (Scan.scan_slides directory))
     = length (matching_images directory)
  /\ Scan.total (Scan.scan_slides directory)
     = length (matching_images directory).
Proof.
  pose proof (scan_slides_omap directory) as Hp.
  split; [|apply scan_slides_count].
  intros s. rewrite Hp, list_elem_of_omap. split.
  - intros (f & Hf & Hs). apply slide_of_inv in Hs as (Hfile & g & Hg & ->).
    by exists f, g.
  - intros (f & g & Hf & Hfile & Hg & ->). exists f. split; [done|].
    apply slide_of_inv. eauto.
Qed.

(** X3. The catalog does not depend on the order in which the directory is
    read: the video map never does, and the whole catalog does not as soon
    as no two slides have the same number. *)
Theorem catalog_order_independent (directory directory' : list DirEntry) :
  directory ≡ₚ directory' ->
  Scan.videos (Scan.scan_slides directory)
  = Scan.videos (Scan.scan_slides directory')
  /\ (NoDup (Scan.num <$> Scan.slides (Scan.scan_slides directory)) ->
      Scan.scan_slides directory = Scan.scan_slides directory').
Proof.
  intros Hp.
  assert (Scan.videos (Scan.scan_slides directory)
          = Scan.videos (Scan.scan_slides directory')) as Hv.
  { apply map_eq. intros k. rewrite !scan_slides_videos_lookup.
    unfold binds_key, Scan.path_exists.
    by rewrite !(existsb_Permutation _ _ _ Hp). }
  split; [done|]. intros Hnd.
  assert (Scan.slides (Scan.scan_slides directory)
          = Scan.slides (Scan.scan_slides directory')) as Hs.
  { revert Hnd. cbn [Scan.scan_slides Scan.slides].
    rewrite !collect_slides_omap. cbn [app]. intros Hnd.
    apply sort_by_num_order_free; [by rewrite Hp|].
    by rewrite sort_by_num_perm in Hnd. }
  assert (Scan.total (Scan.scan_slides directory)
          = Scan.total (Scan.scan_slides directory')) as Ht.
  { change (length (Scan.slides (Scan.scan_slides directory))
            = length (Scan.slides (Scan.scan_slides directory'))).
    by rewrite Hs. }
  destruct (Scan.scan_slides directory), (Scan.scan_slides directory').
  simpl in *. congruence.
Qed.

(** X4. Every binding of the video map comes from a file: the value is the
    key followed by [".mp4"] and names a regular file of the directory, the
    key being a digit run or two digit runs joined by ['-']; the one
    exception is the cover video under key ["1"]. *)
Theorem video_binding_source (directory : list DirEntry) (k v : str) :
  Scan.videos (Scan.scan_slides directory) !! k = Some v ->
  (v = k ++ lit ".mp4"
   /\ (exists f, f ∈ directory /\ is_file f = true /\ name f = v)
   /\ ((k <> [] /\ Forall (fun c => is_digit c = true) k)
       \/ exists a b,
            k = a ++ [45] ++ b /\ a <> [] /\ b <> []
            /\ Forall (fun c => is_digit c = true) a
            /\ Forall (fun c => is_digit c = true) b))
  \/ (k = lit "1" /\ v = cover_name
      /\ Scan.path_exists directory cover_name = true).
Proof.
  rewrite scan_slides_videos_lookup.
  destruct (binds_key directory k) eqn:Hb.
  - intros [= <-]. left. split; [done|].
    apply binds_key_inv in Hb as (f & Hf & Hk).
    pose proof (video_key_name f k Hk) as [Hfile Hname].
    split; [by exists f|].
    unfold video_key in Hk.
    destruct (is_file f && bool_decide (lower (suffix (name f)) = lit ".mp4"));
      [|done].
    destruct (transition_pattern (name f)) as [[a b]|] eqn:Et.
    + right. exists a, b.
      apply transition_pattern_inv in Et as (? & ? & ? & ? & _).
      assert (k = a ++ [45] ++ b) as ->
        by (destruct (mp4_pattern (name f)); by injection Hk).
      done.
    + left. destruct (mp4_pattern (name f)) as [g|] eqn:Em; [|done].
      injection Hk as <-.
      by apply mp4_pattern_inv in Em as (? & ? & _).
  - destruct (Scan.path_exists directory cover_name); [|done]. cbn [andb].
    case_bool_decide as Hk; [|done]. intros [= <-]. by right.
Qed.

(** X5. A regular file [N.mp4] of the directory is bound under its digits
    [N], and a regular file [N-M.mp4] under [N-M], whatever else the
    directory holds. *)
Theorem video_file_bound (directory : list DirEntry) (f : DirEntry) :
  f ∈ directory -> is_file f = true ->
  (forall d,
     d <> [] -> Forall (fun c => is_digit c = true) d ->
     name f = d ++ lit ".mp4" ->
     Scan.videos (Scan.scan_slides directory) !! d = Some (name f))
  /\ (forall a b,
        a <> [] -> b <> [] ->
        Forall (fun c => is_digit c = true) a ->
        Forall (fun c => is_digit c = true) b ->
        name f = a ++ [45] ++ b ++ lit ".mp4" ->
        Scan.videos (Scan.scan_slides directory) !! (a ++ [45] ++ b)
        = Some (name f)).
Proof.
  intros Hf Hfile. split.
  - intros d Hd Hdig Hn.
    assert (video_key f = Some d) as Hk.
    { unfold video_key. rewrite Hfile, Hn. cbn [andb].
      rewrite <- (app_nil_r (lit ".mp4")).
      rewrite suffix_mp4 by done.
      rewrite bool_decide_eq_true_2 by (by vm_compute).
      assert (mp4_pattern (d ++ lit ".mp4" ++ []) = Some d) as Hm.
      { apply digits_then_intro; try done.
        change (is_digit 46 = false). by rewrite is_digit_ascii. }
      rewrite Hm. by apply mp4_pattern_inv in Hm as (_ & _ & -> & _). }
    rewrite scan_slides_videos_lookup, (binds_key_intro directory f d) by done.
    by rewrite Hn.
  - intros a b Ha Hb Hda Hdb Hn.
    assert (video_key f = Some (a ++ [45] ++ b)) as Hk.
    { unfold video_key. rewrite Hfile, Hn. cbn [andb].
      replace (a ++ [45] ++ b ++ lit ".mp4")
        with ((a ++ [45] ++ b) ++ lit ".mp4" ++ [])
        by (by rewrite app_nil_r, <- !app_assoc).
      rewrite suffix_mp4 by (done || by destruct a).
      rewrite bool_decide_eq_true_2 by (by vm_compute).
      replace ((a ++ [45] ++ b) ++ lit ".mp4" ++ [])
        with (a ++ [45] ++ b ++ lit ".mp4")
        by (by rewrite app_nil_r, <- !app_assoc).
      rewrite transition_pattern_intro by done.
      by destruct (mp4_pattern _). }
    rewrite scan_slides_videos_lookup,
      (binds_key_intro directory f (a ++ [45] ++ b)) by done.
    by rewrite Hn, <- !app_assoc.
Qed.

Lemma writes_app l l' :
  List.filter Cli.writes_file (l ++ l')
  = List.filter Cli.writes_file l ++ List.filter Cli.writes_file l'.
Proof. apply List.filter_app. Qed.

Lemma writes_prints {A} (m : A -> Cli.message) (l : list A) :
  List.filter Cli.writes_file ((fun x => Cli.Print (m x)) <$> l) = [].
Proof. induction l as [|x l IH]; [done|]. simpl. exact IH. Qed.

(** The documents [main] writes. *)
Lemma main_writes (args : Cli.Args) :
  List.filter Cli.writes_file (snd (Cli.main args))
  = match Cli.node args with
    | Cli.Listing entries =>
        match matching_images entries with
        | [] => []
        | _ :: _ =>
            [ Cli.WriteFile
                (Cli.path_join (Cli.directory args) (Cli.output args))
                {| Cli.doc_title := Cli.title args;
                   Cli.doc_slides :=
                     Scan.path <$> Scan.slides (Scan.scan_slides entries);
                   Cli.doc_videos := Scan.videos (Scan.scan_slides entries);
                   Cli.doc_total := length (matching_images entries) |} ]
        end
    | _ => []
    end.
Proof.
  unfold Cli.main.
  destruct (Cli.node args) as [| |entries]; cbn [fst snd]; [done..|].
  pose proof (scan_slides_count entries) as (Hlen & Htot).
  destruct (Scan.slides (Scan.scan_slides entries)) as [|s0 sl] eqn:Hs;
    cbn [fst snd].
  - by destruct (matching_images entries).
  - destruct (matching_images entries) as [|n0 ns] eqn:Hm; [done|].
    assert (forall l,
      List.filter Cli.writes_file
        (if bool_decide (Scan.videos (Scan.scan_slides entries) = ∅) then l
         else l ++ [Cli.Print (Cli.FoundVideos (Scan.videos (Scan.scan_slides entries)))])
      = List.filter Cli.writes_file l) as Hvid.
    { intros l. case_bool_decide; [done|]. rewrite writes_app. simpl.
      by rewrite app_nil_r. }
    assert (forall l,
      List.filter Cli.writes_file
        (if (5 <? Scan.total (Scan.scan_slides entries))%nat
         then l ++ [Cli.Print (Cli.MoreSlides (Scan.total (Scan.scan_slides entries)))]
         else l)
      = List.filter Cli.writes_file l) as Hmore.
    { intros l. destruct (5 <? _)%nat; [|done]. rewrite writes_app. simpl.
      by rewrite app_nil_r. }
    rewrite !writes_app, Hvid, Hmore, !writes_app, writes_prints.
    cbn [Cli.generate_html List.filter Cli.writes_file app].
    by rewrite Htot, Hs.
Qed.


(** A regular file named by a digit run and [".mp4"] binds that run. *)
Lemma video_key_mp4 f d :
  is_file f = true ->
  d <> [] -> Forall (fun c => is_digit c = true) d ->
  name f = d ++ lit ".mp4" ->
  video_key f = Some d.
Proof.
  intros Hfile Hd Hdig Hn. unfold video_key. rewrite Hfile, Hn. cbn [andb].
  rewrite <- (app_nil_r (lit ".mp4")).
  rewrite suffix_mp4 by done.
  rewrite bool_decide_eq_true_2 by (by vm_compute).
  assert (mp4_pattern (d ++ lit ".mp4" ++ []) = Some d) as Hm.
  { apply digits_then_intro; try done.
    change (is_digit 46 = false). by rewrite is_digit_ascii. }
  rewrite Hm. by apply mp4_pattern_inv in Hm as (_ & _ & -> & _).
Qed.

Lemma scan_slides_videos_file directory f k :
  f ∈ directory -> video_key f = Some k ->
  Scan.videos (Scan.scan_slides directory) !! k = Some (name f).
Proof.
  intros Hf Hk.
  rewrite scan_slides_videos_lookup, (binds_key_intro directory f k) by done.
  by apply video_key_name in Hk as [_ ->].
Qed.

(** The key of the first slide is the only numeral that reads ["1"]. *)
Lemma toString_first i : (0 <= i)%Z -> toString (i + 1) = lit "1" -> i = 0%Z.
Proof.
  intros Hi. unfold toString.
  destruct (Z.ltb_spec (i + 1) 0); [lia|].
  intros E. apply (f_equal py_int) in E.
  rewrite to_decimal_value in E.
  change (lit "1") with (to_decimal 1) in E.
  rewrite to_decimal_value in E. lia.
Qed.

Lemma toString_numeral (k : N) : toString (Z.of_N k) = to_decimal k.
Proof.
  unfold toString. destruct (Z.ltb_spec (Z.of_N k) 0); [lia|].
  by rewrite N2Z.id.
Qed.

End CatalogExtras.

(** ** Further properties of the player *)

Section PlayerMore.
Import Player PlayerSpec.
Local Open Scope Z_scope.

Lemma imap_index_ext {A B} (g : nat -> bool) (l1 : list A) (l2 : list B) :
  length l1 = length l2 ->
  imap (fun j _ => g j) l1 = imap (fun j _ => g j) l2.
Proof.
  intros Hlen. apply list_eq. intros j. rewrite !list_lookup_imap.
  destruct (decide (j < length l1)%nat) as [Hlt|Hge].
  - destruct (lookup_lt_is_Some_2 l1 j Hlt) as [x ->].
    by destruct (lookup_lt_is_Some_2 l2 j ltac:(lia)) as [y ->].
  - by rewrite !lookup_ge_None_2 by lia.
Qed.

Lemma hidden_stays_hidden {A} (sl : list A) (i : nat) :
  <[i := false]> ((fun _ => false) <$> sl) = (fun _ => false) <$> sl.
Proof.
  apply list_eq. intros j.
  destruct (decide (j = i)) as [->|Hj]; [|by rewrite list_lookup_insert_ne].
  destruct (decide (i < length sl)%nat) as [Hlt|Hge].
  - rewrite list_lookup_insert_eq by (by rewrite length_fmap).
    rewrite list_lookup_fmap.
    by destruct (lookup_lt_is_Some_2 sl i Hlt) as [x ->].
  - by rewrite list_insert_ge by (rewrite length_fmap; lia).
Qed.

Lemma Good_lengths s :
  Good s ->
  length (imageElements s) = length (slides s)
  /\ length (thumbnails s) = length (slides s)
  /\ thumbnailsEl s = showThumbnails s.
Proof.
  intros ((_ & Himg & _) & _ & Hth & Hel).
  split; [done|]. split; [|done]. rewrite Hth. apply length_imap.
Qed.

(** In range, [showSlide] leaves the page showing the image of [index], its
    thumbnail active, and the video hidden and paused. *)
Lemma showSlide_Good index s :
  0 <= index < len s ->
  length (imageElements s) = length (slides s) ->
  length (thumbnails s) = length (slides s) ->
  thumbnailsEl s = showThumbnails s ->
  exists s',
    showSlide index s = Normal s'
    /\ Good s' /\ ShowingImage index s' /\ same_catalog s s'
    /\ showThumbnails s' = showThumbnails s
    /\ paused (videoElement s') = true.
Proof.
  intros Hi Hlen Hth Hel. unfold showSlide, len in *.
  destruct (Z.ltb_spec index 0); [lia|].
  destruct (Z.geb_spec index (Z.of_nat (length (slides s)))); [lia|].
  cbn [orb imageElements].
  destruct (at_index_in_range ((fun _ => false) <$> imageElements s) index)
    as [b ->]; [rewrite length_fmap; lia|].
  eexists. split; [reflexivity|].
  assert (<[Z.to_nat index := true]> ((fun _ => false) <$> imageElements s)
          = imap (fun j _ => Z.of_nat j =? index) (slides s)) as Himg
    by (by apply shown_image).
  unfold Good, Inv, Shown, UiSync, same_catalog, ShowingImage, len. simpl.
  rewrite Himg, length_imap.
  repeat split; try done; try lia.
  - by right.
  - by apply (imap_index_ext (fun j => Z.of_nat j =? index)).
Qed.

(** What [Good] reads of a state. *)
Lemma Good_frame s s' :
  Good s ->
  slides s' = slides s -> currentSlide s' = currentSlide s ->
  imageElements s' = imageElements s ->
  active (videoElement s') = active (videoElement s) ->
  thumbnails s' = thumbnails s -> thumbnailsEl s' = thumbnailsEl s ->
  showThumbnails s' = showThumbnails s ->
  prevBtn s' = prevBtn s -> nextBtn s' = nextBtn s ->
  progressEl s' = progressEl s -> currentIndicator s' = currentIndicator s ->
  Good s'.
Proof.
  unfold Good, Inv, Shown, UiSync, len.
  intros Hs -> -> -> -> -> -> -> -> -> -> ->. exact Hs.
Qed.

Lemma cancel_Good s : Good s -> Good (cancel s).
Proof.
  intros Hs. unfold cancel.
  destruct (isVideoPlaying s); [|done]. by eapply Good_frame.
Qed.

Lemma toggleVideo_Good s : Good s -> Good (toggleVideo s).
Proof.
  intros Hs. unfold toggleVideo.
  destruct (paused (videoElement s)); by eapply Good_frame.
Qed.

Lemma toggleThumbnails_Good s : Good s -> Good (toggleThumbnails s).
Proof.
  intros (Hinv & Hshown & Hth & Hel).
  split; [exact Hinv|]. split; [exact Hshown|]. split; [exact Hth|]. done.
Qed.

Lemma showSlide_cancel_Good index s :
  Good s -> 0 <= index < len s ->
  exists s',
    showSlide index (cancel s) = Normal s'
    /\ Good s' /\ ShowingImage index s' /\ same_catalog s s'
    /\ showThumbnails s' = showThumbnails s
    /\ paused (videoElement s') = true.
Proof.
  intros Hs Hi.
  pose proof (cancel_Good s Hs) as Hc.
  destruct (Good_lengths _ Hc) as (Himg & Hth & Hel).
  destruct (cancel_Inv s (proj1 Hs)) as [_ Hcat].
  pose proof (cancel_fields s) as (Hcur & Hsl & _ & Hshow).
  destruct (showSlide_Good index (cancel s)) as (s' & Hs' & Hg & Hsh & Hcat' & Hst & Hp);
    [unfold len in *; by rewrite Hsl|done..|].
  exists s'. split; [done|]. split; [done|]. split; [done|].
  split; [by eapply same_catalog_trans|]. split; [congruence|done].
Qed.

Lemma playVideo_Good videoPath s :
  Good s ->
  exists s',
    playVideo videoPath s = Normal s' /\ Good s'
    /\ PlayingVideo (currentSlide s) s'
    /\ src (videoElement s') = Some videoPath
    /\ loop (videoElement s') = (currentSlide s =? 0)
    /\ same_catalog s s'.
Proof.
  intros Hs. destruct (Good_lengths s Hs) as (Hlen & _).
  pose proof Hs as ((Hi & _) & Hshown & Hui).
  rewrite playVideo_in_range by done.
  eexists. split; [reflexivity|].
  assert (<[Z.to_nat (currentSlide s) := false]> (imageElements s)
          = (fun _ => false) <$> slides s) as Himg.
  { destruct Hshown as [[_ ->]|[_ ->]];
      [apply hidden_stays_hidden|apply hidden_image]. }
  split; [|split; [|by repeat split]].
  - destruct Hs as (Hinv & _ & Hsync).
    unfold Good, Inv, Shown, UiSync, len in *. simpl.
    rewrite Himg, length_fmap.
    split; [|split; [by left|done]].
    destruct Hinv as (? & ? & ? & ? & ? & ?). repeat split; try done; lia.
  - unfold PlayingVideo, len in *. simpl. rewrite Himg. repeat split; try done; lia.
Qed.

Lemma nextSlide_Good s :
  Good s -> exists s', nextSlide s = Normal s' /\ Good s'.
Proof.
  intros Hs. unfold nextSlide. fold (cancel s).
  pose proof (cancel_fields s) as (Hcur & Hsl & _).
  destruct (Z.ltb_spec (currentSlide (cancel s))
              (Z.of_nat (length (slides (cancel s))) - 1)) as [Hlt|Hge].
  - destruct (showSlide_cancel_Good (currentSlide (cancel s) + 1) s Hs)
      as (s' & -> & Hg & _).
    + destruct Hs as ((Hi & _) & _). unfold len in *. rewrite ?Hsl in *. lia.
    + by exists s'.
  - exists (cancel s). split; [done|]. by apply cancel_Good.
Qed.

Lemma previousSlide_Good s :
  Good s -> exists s', previousSlide s = Normal s' /\ Good s'.
Proof.
  intros Hs. unfold previousSlide. fold (cancel s).
  pose proof (cancel_fields s) as (Hcur & Hsl & _).
  destruct (Z.gtb_spec (currentSlide (cancel s)) 0) as [Hlt|Hge].
  - destruct (showSlide_cancel_Good (currentSlide (cancel s) - 1) s Hs)
      as (s' & -> & Hg & _).
    + destruct Hs as ((Hi & _) & _). unfold len in *. rewrite ?Hsl in *. lia.
    + by exists s'.
  - exists (cancel s). split; [done|]. by apply cancel_Good.
Qed.

Lemma goToSlide_Good index s :
  Good s -> exists s', goToSlide index s = Normal s' /\ Good s'.
Proof.
  intros Hs. unfold goToSlide. fold (cancel s).
  destruct (decide (0 <= index < len s)) as [Hi|Hi].
  - destruct (showSlide_cancel_Good index s Hs Hi) as (s' & -> & Hg & _).
    by exists s'.
  - pose proof (cancel_fields s) as (_ & Hsl & _).
    rewrite showSlide_out_of_range by (unfold len in *; rewrite Hsl; lia).
    exists (cancel s). split; [done|]. by apply cancel_Good.
Qed.

Lemma onSlideClick_Good s :
  Good s -> exists s', onSlideClick s = Normal s' /\ Good s'.
Proof.
  intros Hs. unfold onSlideClick. destruct (isVideoPlaying s).
  - eexists. split; [reflexivity|]. by apply toggleVideo_Good.
  - destruct (videos s !! toString (currentSlide s + 1)) as [[|c p]|].
    + by apply nextSlide_Good.
    + destruct (playVideo_Good (c :: p) s Hs) as (s' & -> & Hg & _). eauto.
    + by apply nextSlide_Good.
Qed.

Lemma showSlide_current_Good s t :
  Good s ->
  slides t = slides s -> currentSlide t = currentSlide s ->
  imageElements t = imageElements s -> thumbnails t = thumbnails s ->
  thumbnailsEl t = thumbnailsEl s -> showThumbnails t = showThumbnails s ->
  exists s', showSlide (currentSlide t) t = Normal s' /\ Good s'.
Proof.
  intros Hs Hsl Hcur Himg Hth Hel Hshow.
  destruct (Good_lengths s Hs) as (Hl1 & Hl2 & Hl3).
  destruct Hs as ((Hi & _) & _).
  destruct (showSlide_Good (currentSlide t) t) as (s' & Hs' & Hg & _);
    [unfold len in *; rewrite Hsl, Hcur; lia|congruence..|].
  eauto.
Qed.

Lemma dispatch_Good e s :
  Good s -> exists s', dispatch e s = Normal s' /\ Good s'.
Proof.
  intros Hs. destruct e as [| |index| | |k| | |]; cbn [dispatch].
  - by apply nextSlide_Good.
  - by apply previousSlide_Good.
  - by apply goToSlide_Good.
  - by apply onSlideClick_Good.
  - eexists. split; [reflexivity|]. by apply toggleVideo_Good.
  - destruct k; cbn [keydown];
      try (by apply nextSlide_Good); try (by apply previousSlide_Good);
      try (by apply goToSlide_Good); try (by apply onSlideClick_Good);
      try (by exists s).
    + eexists. split; [reflexivity|]. by apply toggleThumbnails_Good.
    + destruct (showThumbnails s); eexists; (split; [reflexivity|]); [|done].
      by apply toggleThumbnails_Good.
  - unfold onVideoEnded.
    by apply (showSlide_current_Good s (set_isVideoPlaying false s)).
  - unfold loadeddata. destruct (onloadeddata (videoElement s)); [|by exists s].
    eexists. split; [reflexivity|]. by eapply Good_frame.
  - unfold error. destruct (onerror (videoElement s)); [|by exists s].
    by apply (showSlide_current_Good s (set_loadingEl false s)).
Qed.

Lemma run_Good es s :
  Good s -> exists s', run es s = Normal s' /\ Good s'.
Proof.
  revert s. induction es as [|e es IH]; intros s Hs; cbn [run].
  - by exists s.
  - destruct (dispatch_Good e s Hs) as (s1 & -> & Hs1). by apply IH.
Qed.

Lemma new_Good slidesData videosData :
  slidesData <> [] ->
  exists s0,
    new slidesData videosData = Normal s0 /\ Good s0
    /\ slides s0 = slidesData /\ videos s0 = videosData
    /\ ShowingImage 0 s0.
Proof.
  intros Hne. unfold new.
  match goal with |- context [showSlide 0 ?s] =>
    destruct (showSlide_Good 0 s) as (s0 & -> & Hg & Hshow & [Hsl Hv] & _)
  end.
  - unfold len. simpl. destruct slidesData; [done|]. simpl. lia.
  - simpl. by rewrite length_fmap.
  - simpl. by rewrite length_fmap.
  - done.
  - by exists s0.
Qed.

Lemma reachable_Good slidesData videosData es :
  slidesData <> [] ->
  exists s0 s,
    new slidesData videosData = Normal s0
    /\ run es s0 = Normal s
    /\ Good s.
Proof.
  intros Hne.
  destruct (new_Good slidesData videosData Hne) as (s0 & Hnew & Hg & _).
  destruct (run_Good es s0 Hg) as (s & Hrun & Hs).
  by exists s0, s.
Qed.

End PlayerMore.

Section PlayerExtras.
Import Player PlayerSpec.
Local Open Scope Z_scope.

Lemma reachable_Good_slides slidesData videosData es :
  slidesData <> [] ->
  exists s0 s,
    new slidesData videosData = Normal s0
    /\ run es s0 = Normal s
    /\ Good s /\ slides s = slidesData /\ videos s = videosData.
Proof.
  intros Hne.
  destruct (new_Good slidesData videosData Hne)
    as (s0 & Hnew & Hg & Hsl & Hv & _).
  destruct (run_Good es s0 Hg) as (s & Hrun & Hs).
  destruct (run_Inv es s0 (proj1 Hg)) as (s' & Hrun' & _ & Hsl' & Hv').
  assert (s' = s) as -> by congruence.
  exists s0, s. do 3 (split; [done|]). split; congruence.
Qed.

(** What [showSlide] leaves of the video when it shows a slide. *)
Lemma showSlide_video index s s' :
  0 <= index < len s ->
  showSlide index s = Normal s' ->
  isVideoPlaying s' = false
  /\ active (videoElement s') = false
  /\ paused (videoElement s') = true
  /\ currentSlide s' = index.
Proof.
  intros Hi. unfold showSlide, len in *.
  destruct (Z.ltb_spec index 0); [lia|].
  destruct (Z.geb_spec index (Z.of_nat (length (slides s)))); [lia|].
  cbn [orb]. destruct (at_index _ _); [|done]. by intros [= <-].
Qed.

Lemma cancel_video s :
  isVideoPlaying (cancel s) = false
  /\ active (videoElement (cancel s)) = active (videoElement s)
  /\ (isVideoPlaying s = true -> paused (videoElement (cancel s)) = true)
  /\ (isVideoPlaying s = false -> cancel s = s).
Proof. unfold cancel. by destruct (isVideoPlaying s) eqn:E. Qed.

Lemma showSlide_cancel index s :
  Inv s -> 0 <= index < len s ->
  exists s',
    showSlide index (cancel s) = Normal s'
    /\ Inv s' /\ same_catalog s s' /\ ShowingImage index s'
    /\ paused (videoElement s') = true.
Proof.
  intros Hs Hi.
  destruct (cancel_Inv s Hs) as [Hc Hcat].
  pose proof (cancel_fields s) as (_ & Hsl & _).
  assert (0 <= index < len (cancel s)) as Hi'
    by (unfold len in *; by rewrite Hsl).
  destruct (showSlide_in_range index (cancel s) Hi')
    as (s' & Hs' & Hinv & Hcat' & Hshow & _); [apply Hc|].
  exists s'. split; [done|]. split; [done|].
  split; [by eapply same_catalog_trans|]. split; [done|].
  by apply (showSlide_video index (cancel s) s' Hi').
Qed.

(** X7. After any sequence of events on a player with at least one slide
    the page shows one thing: the video with every image hidden, or the
    image of the current slide alone with the video hidden. *)
Theorem one_thing_shown
    (slidesData : list str) (videosData : gmap str str) (es : list event) :
  slidesData <> [] ->
  exists s0 s,
    new slidesData videosData = Normal s0
    /\ run es s0 = Normal s
    /\ ((active (videoElement s) = true
         /\ imageElements s = (fun _ => false) <$> slidesData)
        \/ (active (videoElement s) = false
            /\ imageElements s
               = imap (fun j _ => Z.of_nat j =? currentSlide s) slidesData)).
Proof.
  intros Hne.
  destruct (reachable_Good_slides slidesData videosData es Hne)
    as (s0 & s & Hnew & Hrun & (_ & Hshown & _) & Hsl & _).
  exists s0, s. split; [done|]. split; [done|].
  unfold Shown in Hshown. by rewrite Hsl in Hshown.
Qed.

(** X8. After any sequence of events on a player with at least one slide
    there is one thumbnail per slide and the active one is that of the
    current slide, the counter reads the index plus one, and the thumbnail
    strip is visible exactly when [showThumbnails] is set. *)
Theorem thumbnails_follow_player
    (slidesData : list str) (videosData : gmap str str) (es : list event) :
  slidesData <> [] ->
  exists s0 s,
    new slidesData videosData = Normal s0
    /\ run es s0 = Normal s
    /\ thumbnails s
       = imap (fun j _ => Z.of_nat j =? currentSlide s) slidesData
    /\ length (thumbnails s) = length slidesData
    /\ currentIndicator s = currentSlide s + 1
    /\ thumbnailsEl s = showThumbnails s.
Proof.
  intros Hne.
  destruct (reachable_Good_slides slidesData videosData es Hne)
    as (s0 & s & Hnew & Hrun & (Hinv & _ & Hth & Hel) & Hsl & _).
  exists s0, s. split; [done|]. split; [done|].
  rewrite Hsl in Hth. split; [done|].
  split; [by rewrite Hth, length_imap|].
  split; [apply Hinv|done].
Qed.

(** X9. A jump to an index of [slides] shows the image of that index,
    whatever was shown or playing; the Home key shows the first slide and
    the End key the last. *)
Theorem jump_in_range (s : State) (index : Z) :
  Inv s ->
  0 <= index < len s ->
  (exists s', goToSlide index s = Normal s'
              /\ ShowingImage index s' /\ paused (videoElement s') = true)
  /\ (exists s', keydown Home s = Normal s' /\ ShowingImage 0 s')
  /\ (exists s', keydown End_ s = Normal s' /\ ShowingImage (len s - 1) s').
Proof.
  intros Hs Hi. pose proof Hs as (Hcur & _).
  split; [|split].
  - destruct (showSlide_cancel index s Hs Hi) as (s' & Hs' & _ & _ & Hsh & Hp).
    by exists s'.
  - destruct (showSlide_cancel 0 s Hs) as (s' & Hs' & _ & _ & Hsh & _); [lia|].
    by exists s'.
  - destruct (showSlide_cancel (len s - 1) s Hs) as (s' & Hs' & _ & _ & Hsh & _);
      [lia|].
    by exists s'.
Qed.

Lemma nextSlide_step s :
  Inv s -> currentSlide s < len s - 1 ->
  exists s', nextSlide s = Normal s' /\ Inv s' /\ same_catalog s s'
             /\ ShowingImage (currentSlide s + 1) s'.
Proof.
  intros Hs Hlt. unfold nextSlide. fold (cancel s).
  pose proof (cancel_fields s) as (Hcur & Hsl & _).
  rewrite Hcur, Hsl.
  destruct (Z.ltb_spec (currentSlide s) (Z.of_nat (length (slides s)) - 1));
    [|unfold len in *; lia].
  destruct (showSlide_cancel (currentSlide s + 1) s Hs)
    as (s' & Hs' & Hinv & Hcat & Hsh & _);
    [destruct Hs as (Hi & _); lia|].
  by exists s'.
Qed.

Lemma previousSlide_step s :
  Inv s -> 0 < currentSlide s ->
  exists s', previousSlide s = Normal s' /\ Inv s' /\ same_catalog s s'
             /\ ShowingImage (currentSlide s - 1) s'.
Proof.
  intros Hs Hlt. unfold previousSlide. fold (cancel s).
  pose proof (cancel_fields s) as (Hcur & Hsl & _).
  rewrite Hcur.
  destruct (Z.gtb_spec (currentSlide s) 0); [|lia].
  destruct (showSlide_cancel (currentSlide s - 1) s Hs)
    as (s' & Hs' & Hinv & Hcat & Hsh & _);
    [destruct Hs as (Hi & _); lia|].
  by exists s'.
Qed.

(** X10. Away from the last slide, next-slide followed by previous-slide
    comes back to the image of the slide it left; away from the first slide
    so does previous-slide followed by next-slide. *)
Theorem next_previous_round_trip (s : State) :
  Inv s ->
  (currentSlide s < len s - 1 ->
   exists s1 s2,
     nextSlide s = Normal s1 /\ currentSlide s1 = currentSlide s + 1
     /\ previousSlide s1 = Normal s2 /\ ShowingImage (currentSlide s) s2)
  /\ (0 < currentSlide s ->
      exists s1 s2,
        previousSlide s = Normal s1 /\ currentSlide s1 = currentSlide s - 1
        /\ nextSlide s1 = Normal s2 /\ ShowingImage (currentSlide s) s2).
Proof.
  intros Hs. split; intros Hlt.
  - destruct (nextSlide_step s Hs Hlt) as (s1 & Hn & Hinv1 & _ & Hsh1).
    pose proof Hsh1 as (_ & Hc1 & _).
    destruct (previousSlide_step s1 Hinv1) as (s2 & Hp & _ & _ & Hsh2);
      [destruct Hs as (Hi & _); lia|].
    exists s1, s2. rewrite Hc1 in Hsh2.
    replace (currentSlide s + 1 - 1) with (currentSlide s) in Hsh2 by lia.
    done.
  - destruct (previousSlide_step s Hs Hlt) as (s1 & Hp & Hinv1 & [Hsl _] & Hsh1).
    pose proof Hsh1 as (_ & Hc1 & _).
    destruct (nextSlide_step s1 Hinv1) as (s2 & Hn & _ & _ & Hsh2).
    { destruct Hs as (Hi & _). unfold len in *. rewrite Hsl. lia. }
    exists s1, s2. rewrite Hc1 in Hsh2.
    replace (currentSlide s - 1 + 1) with (currentSlide s) in Hsh2 by lia.
    done.
Qed.

(** X11. Pausing and resuming undo each other: toggling the video twice
    gives back the state, and so does the primary action twice while a video
    is playing, which changes nothing but the pause of the video. *)
Theorem pause_resume (s : State) :
  toggleVideo (toggleVideo s) = s
  /\ (isVideoPlaying s = true ->
      exists s1,
        onSlideClick s = Normal s1
        /\ onSlideClick s1 = Normal s
        /\ paused (videoElement s1) = negb (paused (videoElement s))
        /\ currentSlide s1 = currentSlide s
        /\ isVideoPlaying s1 = true
        /\ imageElements s1 = imageElements s
        /\ active (videoElement s1) = active (videoElement s)).
Proof.
  assert (toggleVideo (toggleVideo s) = s) as Htwice.
  { destruct s as [? ? ? ? ? ? [? ? ? [] ? ?] ? ? ? ? ? ? ?]; reflexivity. }
  split; [done|]. intros Hplay.
  exists (toggleVideo s).
  assert (isVideoPlaying (toggleVideo s) = true) as Hplay'.
  { unfold toggleVideo. by destruct (paused (videoElement s)). }
  unfold onSlideClick. rewrite Hplay, Hplay', Htwice.
  split; [done|]. split; [done|].
  unfold toggleVideo. by destruct (paused (videoElement s)).
Qed.

(** X12. The load handler does not look at what is shown.  When the user
    has moved on to the image of slide [i] before the video was loaded, the
    load event starts the hidden video and sets [isVideoPlaying] with the
    image still shown; the next primary action then only pauses that video:
    the slide does not change and no video is shown. *)
Theorem late_load_blocks_primary_action (s : State) (i : Z) :
  ShowingImage i s ->
  onloadeddata (videoElement s) = true ->
  exists s1 s2,
    loadeddata s = Normal s1
    /\ isVideoPlaying s1 = true
    /\ paused (videoElement s1) = false
    /\ active (videoElement s1) = false
    /\ imageElements s1 = imageElements s
    /\ currentSlide s1 = i
    /\ onSlideClick s1 = Normal s2
    /\ currentSlide s2 = i
    /\ active (videoElement s2) = false
    /\ paused (videoElement s2) = true.
Proof.
  intros (Hi & Hcur & Hplay & Hact & Himg) Hload.
  unfold loadeddata. rewrite Hload.
  eexists. eexists. split; [reflexivity|].
  cbn [isVideoPlaying set_isVideoPlaying videoElement set_videoElement
       set_loadingEl paused play active imageElements currentSlide].
  do 5 (split; [done|]).
  unfold onSlideClick.
  cbn [isVideoPlaying set_isVideoPlaying]. split; [reflexivity|].
  by unfold toggleVideo.
Qed.

(** X13. The navigation methods clamp: next-slide moves to the smaller of
    the next index and the last one, previous-slide to the larger of the
    previous index and 0, and a jump to the index asked for when it is an
    index of [slides], leaving the current one otherwise. *)
Theorem navigation_is_clamped (s : State) (index : Z) :
  Inv s ->
  (exists s', nextSlide s = Normal s'
              /\ currentSlide s' = Z.min (currentSlide s + 1) (len s - 1))
  /\ (exists s', previousSlide s = Normal s'
                 /\ currentSlide s' = Z.max (currentSlide s - 1) 0)
  /\ (exists s', goToSlide index s = Normal s'
                 /\ currentSlide s'
                    = if decide (0 <= index < len s) then index
                      else currentSlide s).
Proof.
  intros Hs. pose proof Hs as (Hi & _).
  pose proof (cancel_fields s) as (Hcur & Hsl & _).
  split; [|split].
  - destruct (decide (currentSlide s < len s - 1)) as [Hlt|Hge].
    + destruct (nextSlide_step s Hs Hlt) as (s' & Hn & _ & _ & _ & Hc & _).
      exists s'. split; [done|]. lia.
    + exists (cancel s). unfold nextSlide. fold (cancel s). rewrite Hcur, Hsl.
      destruct (Z.ltb_spec (currentSlide s) (Z.of_nat (length (slides s)) - 1));
        [unfold len in *; lia|].
      split; [done|]. unfold len in *. lia.
  - destruct (decide (0 < currentSlide s)) as [Hlt|Hge].
    + destruct (previousSlide_step s Hs Hlt) as (s' & Hp & _ & _ & _ & Hc & _).
      exists s'. split; [done|]. lia.
    + exists (cancel s). unfold previousSlide. fold (cancel s). rewrite Hcur.
      destruct (Z.gtb_spec (currentSlide s) 0); [lia|].
      split; [done|]. lia.
  - unfold goToSlide. fold (cancel s). case_decide as Hin.
    + destruct (showSlide_cancel index s Hs Hin) as (s' & Hs' & _ & _ & Hsh & _).
      exists s'. split; [done|]. apply Hsh.
    + rewrite showSlide_out_of_range by (unfold len in *; rewrite Hsl; lia).
      by exists (cancel s).
Qed.

(** X14. Every navigation request stops a playing video: afterwards
    [isVideoPlaying] is false, and the video is paused if it was playing.
    When the request moves nowhere, next-slide on the last slide or
    previous-slide on the first, the video stays on the page as it was,
    paused. *)
Theorem navigation_stops_video (s : State) (index : Z) :
  Inv s ->
  (forall e s',
     e = Next \/ e = Previous \/ e = JumpTo index ->
     dispatch e s = Normal s' ->
     isVideoPlaying s' = false
     /\ (isVideoPlaying s = true -> paused (videoElement s') = true))
  /\ (currentSlide s = len s - 1 ->
      exists s', nextSlide s = Normal s'
                 /\ active (videoElement s') = active (videoElement s)
                 /\ imageElements s' = imageElements s)
  /\ (currentSlide s = 0 ->
      exists s', previousSlide s = Normal s'
                 /\ active (videoElement s') = active (videoElement s)
                 /\ imageElements s' = imageElements s).
Proof.
  intros Hs. pose proof Hs as (Hi & _).
  pose proof (cancel_fields s) as (Hcur & Hsl & Himg & _).
  pose proof (cancel_video s) as (Hplay & Hact & Hpaused & _).
  assert (forall idx s',
            showSlide idx (cancel s) = Normal s' ->
            isVideoPlaying s' = false
            /\ (isVideoPlaying s = true -> paused (videoElement s') = true))
    as Hshow.
  { intros idx s' Hs'.
    destruct (decide (0 <= idx < len (cancel s))) as [Hin|Hout].
    - by apply showSlide_video in Hs' as (? & _ & ? & _).
    - rewrite showSlide_out_of_range in Hs' by lia. by injection Hs' as <-. }
  split; [|split].
  - intros e s' [-> | [-> | ->]]; cbn [dispatch].
    + unfold nextSlide. fold (cancel s).
      destruct (_ <? _); [apply Hshow|]. by intros [= <-].
    + unfold previousSlide. fold (cancel s).
      destruct (_ >? _); [apply Hshow|]. by intros [= <-].
    + unfold goToSlide. fold (cancel s). apply Hshow.
  - intros Hlast. exists (cancel s). unfold nextSlide. fold (cancel s).
    rewrite Hcur, Hsl.
    destruct (Z.ltb_spec (currentSlide s) (Z.of_nat (length (slides s)) - 1));
      [unfold len in *; lia|done].
  - intros Hfirst. exists (cancel s). unfold previousSlide. fold (cancel s).
    rewrite Hcur. destruct (Z.gtb_spec (currentSlide s) 0); [lia|done].
Qed.

(** X15. The thumbnail strip: Escape leaves it closed whatever it was, the
    T key twice leaves it as it was, and neither changes the slide, the
    video or what is shown. *)
Theorem thumbnail_keys (s : State) :
  thumbnailsEl s = showThumbnails s ->
  (exists s', keydown Escape s = Normal s'
              /\ showThumbnails s' = false /\ thumbnailsEl s' = false
              /\ currentSlide s' = currentSlide s
              /\ isVideoPlaying s' = isVideoPlaying s
              /\ videoElement s' = videoElement s
              /\ imageElements s' = imageElements s)
  /\ (exists s1,
        keydown KeyT s = Normal s1
        /\ showThumbnails s1 = negb (showThumbnails s)
        /\ thumbnailsEl s1 = showThumbnails s1
        /\ keydown KeyT s1 = Normal s).
Proof.
  intros Hsync. split.
  - cbn [keydown]. destruct (showThumbnails s) eqn:Hshow.
    + eexists. split; [reflexivity|]. simpl. by rewrite Hshow.
    + exists s. by rewrite Hsync, Hshow.
  - exists (toggleThumbnails s). cbn [keydown].
    split; [done|]. split; [done|]. split; [done|]. f_equal.
    unfold toggleThumbnails. cbn [showThumbnails thumbnailsEl slides videos
      currentSlide isVideoPlaying imageElements videoElement loadingEl
      currentIndicator progressEl prevBtn nextBtn thumbnails].
    rewrite negb_involutive. destruct s; simpl in *. by subst.
Qed.

End PlayerExtras.

Section EndToEnd.
Context `{DigitTable}.
Import Player PlayerSpec.
Local Open Scope Z_scope.

(** X16. A regular file [k.mp4], named by the decimal numeral of a slide
    number [k] of the catalog, is the video of slide [k]: on the player of
    that catalog a jump to index [k - 1] and the primary action show that
    video with [src] the file, looping exactly when [k] is 1. *)
Theorem numbered_video_plays
    (directory : list DirEntry) (f : DirEntry) (k : N) :
  f ∈ directory -> is_file f = true ->
  name f = to_decimal k ++ lit ".mp4" ->
  (1 <= k <= N.of_nat (Scan.total (Scan.scan_slides directory)))%N ->
  exists s0 s1 s2,
    of_catalog (Scan.scan_slides directory) = Normal s0
    /\ goToSlide (Z.of_N k - 1) s0 = Normal s1
    /\ onSlideClick s1 = Normal s2
    /\ PlayingVideo (Z.of_N k - 1) s2
    /\ src (videoElement s2) = Some (name f)
    /\ loop (videoElement s2) = (k =? 1)%N.
Proof.
  intros Hf Hfile Hn Hk. unfold of_catalog.
  assert (length (Scan.path <$> Scan.slides (Scan.scan_slides directory))
          = Scan.total (Scan.scan_slides directory)) as Hlen
    by (by rewrite length_fmap).
  destruct (new_Good (Scan.path <$> Scan.slides (Scan.scan_slides directory))
              (Scan.videos (Scan.scan_slides directory)))
    as (s0 & Hnew & Hg0 & Hsl0 & Hv0 & _).
  { intros E. rewrite E in Hlen. cbn [length] in Hlen.
    rewrite <- Hlen in Hk. lia. }
  assert (len s0 = Z.of_nat (Scan.total (Scan.scan_slides directory))) as Hlen0
    by (unfold len; by rewrite Hsl0, Hlen).
  destruct (showSlide_cancel_Good (Z.of_N k - 1) s0 Hg0)
    as (s1 & Hs1 & Hg1 & Hsh1 & [_ Hv1] & _); [lia|].
  destruct Hsh1 as (_ & Hc1 & Hp1 & _).
  assert (videos s1 !! toString (currentSlide s1 + 1) = Some (name f)) as Hkey.
  { rewrite Hc1, Hv1, Hv0.
    replace (Z.of_N k - 1 + 1) with (Z.of_N k) by lia.
    rewrite toString_numeral.
    apply scan_slides_videos_file; [done|].
    apply video_key_mp4; try done.
    - apply to_decimal_nonempty.
    - apply to_decimal_digits. }
  destruct (playVideo_Good (name f) s1 Hg1) as (s2 & Hs2 & _ & Hpv & Hsrc & Hloop & _).
  exists s0, s1, s2. split; [done|]. split; [done|].
  split.
  { unfold onSlideClick. rewrite Hp1, Hkey.
    destruct (name f) as [|c p] eqn:En; [|done].
    pose proof (to_decimal_nonempty k). by destruct (to_decimal k). }
  rewrite Hc1 in Hpv, Hloop. split; [done|]. split; [done|].
  rewrite Hloop. destruct (Z.eqb_spec (Z.of_N k - 1) 0);
    destruct (N.eqb_spec k 1); try done; lia.
Qed.

(** X17. Only its own file gives a slide a video.  When the directory has
    no regular file named by the numeral of slide [i + 1] and [".mp4"], and
    for the first slide no cover video either, the primary action on the
    image of slide [i] moves to the next slide, whatever zero-padded names
    or transition videos the catalog recorded. *)
Theorem only_own_video_plays
    (directory : list DirEntry) (s : State) (i : Z) :
  videos s = Scan.videos (Scan.scan_slides directory) ->
  ShowingImage i s ->
  (forall f, f ∈ directory -> is_file f = true ->
             name f <> toString (i + 1) ++ lit ".mp4") ->
  (i = 0 -> Scan.path_exists directory cover_name = false) ->
  videos s !! toString (i + 1) = None
  /\ onSlideClick s = nextSlide s.
Proof.
  intros Hv (Hi & Hcur & Hplay & _) Hnone Hcover.
  assert (videos s !! toString (i + 1) = None) as Hkey.
  { rewrite Hv, scan_slides_videos_lookup.
    destruct (binds_key directory (toString (i + 1))) eqn:Hb.
    - apply binds_key_inv in Hb as (f & Hf & Hk).
      apply video_key_name in Hk as [Hfile Hname].
      by destruct (Hnone f Hf Hfile).
    - destruct (Scan.path_exists directory cover_name) eqn:Hc; [|done].
      cbn [andb]. case_bool_decide as Hone; [|done].
      apply toString_first in Hone; [|lia].
      specialize (Hcover Hone). congruence. }
  split; [done|].
  unfold onSlideClick. by rewrite Hplay, Hcur, Hkey.
Qed.

(** X18. Every document [main] writes starts a working player: its slide
    list is not empty, so the constructor ends normally showing the image
    of the first slide, on as many slides as the document's [total] and
    with the video map of the document. *)
Theorem written_document_starts
    (args : Cli.Args) (output_path : str) (doc : Cli.Document) :
  In (Cli.WriteFile output_path doc) (snd (Cli.main args)) ->
  exists s0,
    new (Cli.doc_slides doc) (Cli.doc_videos doc) = Normal s0
    /\ ShowingImage 0 s0
    /\ len s0 = Z.of_nat (Cli.doc_total doc)
    /\ videos s0 = Cli.doc_videos doc
    /\ Cli.doc_total doc <> 0%nat.
Proof.
  intros Hin.
  assert (In (Cli.WriteFile output_path doc)
            (List.filter Cli.writes_file (snd (Cli.main args)))) as Hw
    by (by apply List.filter_In).
  rewrite main_writes in Hw.
  destruct (Cli.node args) as [| |entries]; [done..|].
  pose proof (scan_slides_count entries) as (Hlen & _).
  destruct (matching_images entries) as [|n0 ns] eqn:Hm; [done|].
  destruct Hw as [[= <- <-]|[]].
  cbn [Cli.doc_slides Cli.doc_videos Cli.doc_total].
  destruct (new_Good (Scan.path <$> Scan.slides (Scan.scan_slides entries))
              (Scan.videos (Scan.scan_slides entries)))
    as (s0 & Hnew & _ & Hsl & Hv & Hshow).
  { intros E. apply (f_equal length) in E. rewrite length_fmap, Hlen in E.
    done. }
  exists s0. split; [done|]. split; [done|].
  split; [unfold len; by rewrite Hsl, length_fmap, Hlen|]. done.
Qed.

End EndToEnd.

(** ** The further properties at the sample inputs *)

Import Player PlayerSpec.

Lemma catalog_order_independent_witness :
  talk_directory ≡ₚ talk_directory_again
  /\ Scan.videos (Scan.scan_slides talk_directory)
     = Scan.videos (Scan.scan_slides talk_directory_again).
Proof.
  assert (talk_directory ≡ₚ talk_directory_again) as Hp
    by apply Permutation_rev.
  split; [exact Hp|].
  exact (proj1 (catalog_order_independent talk_directory talk_directory_again Hp)).
Defined.

Lemma video_binding_source_witness :
  Scan.videos (Scan.scan_slides numbered_videos) !! lit "2" = Some (lit "2.mp4")
  /\ exists f, f ∈ numbered_videos /\ is_file f = true /\ name f = lit "2.mp4".
Proof.
  assert (Scan.videos (Scan.scan_slides numbered_videos) !! lit "2"
          = Some (lit "2.mp4")) as Hl by (vm_compute; reflexivity).
  split; [exact Hl|].
  destruct (video_binding_source numbered_videos (lit "2") (lit "2.mp4") Hl)
    as [(_ & Hf & _)|(Hk & _)]; [exact Hf|].
  vm_compute in Hk. discriminate.
Defined.

Lemma video_file_bound_witness :
  file "2.mp4" ∈ numbered_videos
  /\ is_file (file "2.mp4") = true
  /\ Scan.videos (Scan.scan_slides numbered_videos) !! lit "2"
     = Some (name (file "2.mp4")).
Proof.
  assert (file "2.mp4" ∈ numbered_videos) as Hin.
  { apply list_elem_of_In. right. left. reflexivity. }
  assert (is_file (file "2.mp4") = true) as Hfile by reflexivity.
  split; [exact Hin|]. split; [exact Hfile|].
  apply (proj1 (video_file_bound numbered_videos (file "2.mp4") Hin Hfile)).
  - discriminate.
  - repeat constructor.
  - reflexivity.
Defined.

Lemma one_thing_shown_witness :
  three_slides <> []
  /\ exists s0 s,
       new three_slides cover_only = Normal s0
       /\ run some_events s0 = Normal s
       /\ ((active (videoElement s) = true
            /\ imageElements s = (fun _ => false) <$> three_slides)
           \/ (active (videoElement s) = false
               /\ imageElements s
                  = imap (fun j _ => Z.of_nat j =? currentSlide s)%Z three_slides)).
Proof.
  assert (three_slides <> []) as Hne by discriminate.
  split; [exact Hne|].
  exact (one_thing_shown three_slides cover_only some_events Hne).
Defined.

Lemma thumbnails_follow_player_witness :
  three_slides <> []
  /\ exists s0 s,
       new three_slides cover_only = Normal s0
       /\ run some_events s0 = Normal s
       /\ length (thumbnails s) = length three_slides.
Proof.
  assert (three_slides <> []) as Hne by discriminate.
  split; [exact Hne|].
  destruct (thumbnails_follow_player three_slides cover_only some_events Hne)
    as (s0 & s & Hnew & Hrun & _ & Hlen & _).
  exists s0, s. split; [exact Hnew|]. split; [exact Hrun|exact Hlen].
Defined.

Lemma playing_first_Inv : Inv playing_first.
Proof. unfold Inv. repeat split; by vm_compute. Qed.

Lemma showing_first_Inv : Inv showing_first.
Proof. unfold Inv. repeat split; by vm_compute. Qed.

Lemma jump_in_range_witness :
  Inv playing_first
  /\ (0 <= 2 < len playing_first)%Z
  /\ exists s', goToSlide 2 playing_first = Normal s' /\ ShowingImage 2 s'.
Proof.
  assert (0 <= 2 < len playing_first)%Z as Hi by (split; by vm_compute).
  split; [exact playing_first_Inv|]. split; [exact Hi|].
  destruct (jump_in_range playing_first 2 playing_first_Inv Hi)
    as ((s' & Hgo & Hsh & _) & _).
  exists s'. split; [exact Hgo|exact Hsh].
Defined.

Lemma next_previous_round_trip_witness :
  Inv showing_first
  /\ (currentSlide showing_first < len showing_first - 1)%Z
  /\ exists s1 s2,
       nextSlide showing_first = Normal s1
       /\ previousSlide s1 = Normal s2
       /\ ShowingImage (currentSlide showing_first) s2.
Proof.
  assert (currentSlide showing_first < len showing_first - 1)%Z as Hlt
    by (by vm_compute).
  split; [exact showing_first_Inv|]. split; [exact Hlt|].
  destruct (proj1 (next_previous_round_trip showing_first showing_first_Inv) Hlt)
    as (s1 & s2 & Hn & _ & Hp & Hsh).
  exists s1, s2. split; [exact Hn|]. split; [exact Hp|exact Hsh].
Defined.

Lemma late_load_blocks_primary_action_witness :
  ShowingImage 1 moved_on
  /\ onloadeddata (videoElement moved_on) = true
  /\ exists s1 s2,
       loadeddata moved_on = Normal s1
       /\ isVideoPlaying s1 = true
       /\ onSlideClick s1 = Normal s2
       /\ currentSlide s2 = 1%Z.
Proof.
  assert (ShowingImage 1 moved_on) as Hs.
  { unfold ShowingImage. repeat split; by vm_compute. }
  assert (onloadeddata (videoElement moved_on) = true) as Hl by reflexivity.
  split; [exact Hs|]. split; [exact Hl|].
  destruct (late_load_blocks_primary_action moved_on 1 Hs Hl)
    as (s1 & s2 & Hload & Hplay & _ & _ & _ & _ & Hclick & Hcur & _).
  exists s1, s2. split; [exact Hload|]. split; [exact Hplay|].
  split; [exact Hclick|exact Hcur].
Defined.

Lemma navigation_is_clamped_witness :
  Inv playing_first
  /\ exists s', nextSlide playing_first = Normal s'
                /\ currentSlide s'
                   = Z.min (currentSlide playing_first + 1) (len playing_first - 1).
Proof.
  split; [exact playing_first_Inv|].
  exact (proj1 (navigation_is_clamped playing_first 7 playing_first_Inv)).
Defined.

Lemma navigation_stops_video_witness :
  Inv playing_first
  /\ forall e s',
       e = Next \/ e = Previous \/ e = JumpTo 7 ->
       dispatch e playing_first = Normal s' ->
       isVideoPlaying s' = false
       /\ (isVideoPlaying playing_first = true -> paused (videoElement s') = true).
Proof.
  split; [exact playing_first_Inv|].
  exact (proj1 (navigation_stops_video playing_first 7 playing_first_Inv)).
Defined.

Lemma thumbnail_keys_witness :
  thumbnailsEl showing_first = showThumbnails showing_first
  /\ exists s1,
       keydown KeyT showing_first = Normal s1
       /\ showThumbnails s1 = negb (showThumbnails showing_first)
       /\ thumbnailsEl s1 = showThumbnails s1
       /\ keydown KeyT s1 = Normal showing_first.
Proof.
  assert (thumbnailsEl showing_first = showThumbnails showing_first) as Hs
    by reflexivity.
  split; [exact Hs|].
  exact (proj2 (thumbnail_keys showing_first Hs)).
Defined.

Lemma numbered_video_plays_witness :
  file "2.mp4" ∈ numbered_videos
  /\ (1 <= 2 <= N.of_nat (Scan.total (Scan.scan_slides numbered_videos)))%N
  /\ exists s0 s1 s2,
       of_catalog (Scan.scan_slides numbered_videos) = Normal s0
       /\ goToSlide (Z.of_N 2 - 1) s0 = Normal s1
       /\ onSlideClick s1 = Normal s2
       /\ PlayingVideo (Z.of_N 2 - 1) s2
       /\ src (videoElement s2) = Some (name (file "2.mp4"))
       /\ loop (videoElement s2) = (2 =? 1)%N.
Proof.
  assert (file "2.mp4" ∈ numbered_videos) as Hin.
  { apply list_elem_of_In. right. left. reflexivity. }
  assert (1 <= 2 <= N.of_nat (Scan.total (Scan.scan_slides numbered_videos)))%N
    as Hk by (split; by vm_compute).
  split; [exact Hin|]. split; [exact Hk|].
  exact (numbered_video_plays numbered_videos (file "2.mp4") 2 Hin eq_refl
           eq_refl Hk).
Defined.

Lemma only_own_video_plays_witness :
  videos numbered_player_last = Scan.videos (Scan.scan_slides numbered_videos)
  /\ ShowingImage 2 numbered_player_last
  /\ Scan.videos (Scan.scan_slides numbered_videos) !! lit "03"
     = Some (lit "03.mp4")
  /\ onSlideClick numbered_player_last = nextSlide numbered_player_last.
Proof.
  assert (videos numbered_player_last
          = Scan.videos (Scan.scan_slides numbered_videos)) as Hv
    by (vm_compute; reflexivity).
  assert (ShowingImage 2 numbered_player_last) as Hs.
  { unfold ShowingImage. repeat split; by vm_compute. }
  assert (forall f, f ∈ numbered_videos -> is_file f = true ->
                    name f <> toString (2 + 1) ++ lit ".mp4") as Hnone.
  { intros f Hin Hfile. apply list_elem_of_In in Hin. simpl in Hin.
    repeat (destruct Hin as [<-|Hin]; [by vm_compute|]). destruct Hin. }
  assert ((2 = 0)%Z -> Scan.path_exists numbered_videos cover_name = false)
    as Hc by discriminate.
  split; [exact Hv|]. split; [exact Hs|].
  split; [vm_compute; reflexivity|].
  exact (proj2 (only_own_video_plays numbered_videos numbered_player_last 2
                  Hv Hs Hnone Hc)).
Defined.

Lemma written_document_starts_witness :
  In (Cli.WriteFile (lit "/talk/slideshow.html")
        {| Cli.doc_title := lit "Talk"; Cli.doc_slides := three_slides;
           Cli.doc_videos := cover_only; Cli.doc_total := 3 |})
     (snd (Cli.main talk_args))
  /\ exists s0, new three_slides cover_only = Normal s0 /\ ShowingImage 0 s0.
Proof.
  assert (In (Cli.WriteFile (lit "/talk/slideshow.html")
                {| Cli.doc_title := lit "Talk"; Cli.doc_slides := three_slides;
                   Cli.doc_videos := cover_only; Cli.doc_total := 3 |})
             (snd (Cli.main talk_args))) as Hin.
  { do 6 right. left. vm_compute. reflexivity. }
  split; [exact Hin|].
  destruct (written_document_starts talk_args _ _ Hin) as (s0 & Hnew & Hsh & _).
  exists s0. split; [exact Hnew|exact Hsh].
Defined.
